(** * A shallow embedding of the explicit-free-list allocator [mm.c]

    The allocator manages one contiguous heap handed out by a heap provider
    ([mem_sbrk]).  Addresses are byte addresses; every access the allocator
    makes is a whole word ([uintptr_t] or [char *]) of [WSIZE] bytes.  The
    embedding keeps the heap as a finite map from word addresses to word
    values and threads it, together with the two globals [heap_listp] and
    [list_head], through a small state-and-error monad.  An access outside
    the region granted by the provider, or one that is not word aligned,
    is a [Fault] (the C program has no defined result there).  Sizes and
    pointers are [8 * WSIZE]-bit numbers: every sum, difference and product
    the C code computes on them is taken modulo [2 ^ (8 * WSIZE)]. *)

From Stdlib Require Import ZArith Lia Bool List.
From stdpp Require Import base gmap.
Import ListNotations.

#[local] Open Scope Z_scope.

(** ** Allocator state *)

Record state := mkState {
  mem : gmap Z Z;        (* contents of the heap, a word per word address *)
  mem_lo : Z;            (* first byte of the heap (mem_heap_lo) *)
  mem_brk : Z;           (* one past the last byte of the heap *)
  mem_max : Z;           (* the provider refuses to grow beyond this *)
  heap_listp : Z;        (* static char *heap_listp *)
  list_head : Z          (* static char *list_head *)
}.

Definition set_mem (m : gmap Z Z) (s : state) : state :=
  mkState m (mem_lo s) (mem_brk s) (mem_max s) (heap_listp s) (list_head s).
Definition set_brk (b : Z) (s : state) : state :=
  mkState (mem s) (mem_lo s) b (mem_max s) (heap_listp s) (list_head s).
Definition set_heap_listp (p : Z) (s : state) : state :=
  mkState (mem s) (mem_lo s) (mem_brk s) (mem_max s) p (list_head s).
Definition set_list_head (p : Z) (s : state) : state :=
  mkState (mem s) (mem_lo s) (mem_brk s) (mem_max s) (heap_listp s) p.

(** ** Results of running a piece of the allocator *)

Inductive result (A : Type) : Type :=
  | Ok (a : A) (s : state)     (* returned [a], heap now [s] *)
  | Fault                       (* access outside the heap or misaligned *)
  | OutOfFuel.                  (* a list walk did not end within its bound *)
Arguments Ok {A} a s.
Arguments Fault {A}.
Arguments OutOfFuel {A}.

Definition M (A : Type) : Type := state -> result A.

Definition ret {A} (a : A) : M A := fun s => Ok a s.
Definition bind {A B} (m : M A) (k : A -> M B) : M B :=
  fun s => match m s with
           | Ok a s' => k a s'
           | Fault => Fault
           | OutOfFuel => OutOfFuel
           end.

Notation "'do' x <- m ; k" := (bind m (fun x => k))
  (at level 10, x name, m at level 100, k at level 200).
Notation "m ;; k" := (bind m (fun _ => k))
  (at level 100, k at level 200, right associativity).

Definition get_list_head : M Z := fun s => Ok (list_head s) s.
Definition put_list_head (p : Z) : M unit := fun s => Ok tt (set_list_head p s).
Definition get_heap_listp : M Z := fun s => Ok (heap_listp s) s.
Definition put_heap_listp (p : Z) : M unit := fun s => Ok tt (set_heap_listp p s).

Section Allocator.

(** [WSIZE] is [sizeof(void * )]: 4 on a 32-bit target, 8 on a 64-bit one. *)
Variable WSIZE : Z.

Definition DSIZE : Z := 2 * WSIZE.
Definition CHUNKSIZE : Z := Z.shiftl 1 12.

(** [size_t], [uintptr_t] and pointers are [8 * WSIZE] bits wide. *)
Definition wbits : Z := 8 * WSIZE.
Definition wrap (x : Z) : Z := x mod 2 ^ wbits.

Definition MAX (x y : Z) : Z := if x >? y then x else y.
Definition PACK (size alloc : Z) : Z := Z.lor size alloc.

(** *** Word accesses *)

Definition valid_addr (a : Z) (s : state) : bool :=
  (mem_lo s <=? a) && (a + WSIZE <=? mem_brk s) && (a mod WSIZE =? 0).

(** The word at [a], when [a] is a word of the heap. *)
Definition load (a : Z) (s : state) : option Z :=
  if valid_addr a s then Some (default 0 (mem s !! a)) else None.

Definition GET (p : Z) : M Z := fun s =>
  match load p s with Some v => Ok v s | None => Fault end.

Definition PUT (p val : Z) : M unit := fun s =>
  if valid_addr p s then Ok tt (set_mem (<[p := val]> (mem s)) s) else Fault.

(** The size and allocated fields of a header or footer word. *)
Definition size_of (v : Z) : Z := Z.land v (wrap (Z.lnot (DSIZE - 1))).
Definition alloc_of (v : Z) : Z := Z.land v 1.

Definition GET_SIZE (p : Z) : M Z := do v <- GET p; ret (size_of v).
Definition GET_ALLOC (p : Z) : M Z := do v <- GET p; ret (alloc_of v).

Definition HDRP (bp : Z) : Z := wrap (bp - WSIZE).
Definition FTRP (bp : Z) : M Z :=
  do sz <- GET_SIZE (HDRP bp); ret (wrap (wrap (bp + sz) - DSIZE)).

Definition NEXT_BLKP (bp : Z) : M Z :=
  do sz <- GET_SIZE (HDRP bp); ret (wrap (bp + sz)).
Definition PREV_BLKP (bp : Z) : M Z :=
  do sz <- GET_SIZE (wrap (bp - DSIZE)); ret (wrap (bp - sz)).

Definition GET_NEXTP (bp : Z) : M Z := GET (wrap (bp + WSIZE)).
Definition GET_PREVP (bp : Z) : M Z := GET bp.
Definition SET_NEXTP (bp qp : Z) : M unit := PUT (wrap (bp + WSIZE)) qp.
Definition SET_PREVP (bp qp : Z) : M unit := PUT bp qp.

(** A block size: a multiple of the double word that fits a [size_t]. *)
Definition is_size (n : Z) : Prop :=
  0 <= n < 2 ^ wbits /\ n mod DSIZE = 0.

(** *** The heap provider *)

(** Modelled from the spec: the heap provider [mem_sbrk] of memlib, which is
    not part of the sources.  It appends [incr] bytes to the heap and returns
    the previous end address, or the failure sentinel [(void * )-1] when the
    region cannot grow that far. *)
Definition mem_sbrk (incr : Z) : M Z := fun s =>
  if mem_brk s + incr <=? mem_max s
  then Ok (mem_brk s) (set_brk (mem_brk s + incr) s)
  else Ok (wrap (-1)) s.

(** *** Free list *)

Definition insert_list (bp : Z) : M unit :=
  do head <- get_list_head;
  SET_NEXTP bp head;;
  do head <- get_list_head;
  SET_PREVP head bp;;
  SET_PREVP bp 0;;
  put_list_head bp.

Definition remove_list (bp : Z) : M unit :=
  do prev <- GET_PREVP bp;
  (if negb (prev =? 0)
   then do prev <- GET_PREVP bp;
        do next <- GET_NEXTP bp;
        SET_NEXTP prev next
   else do next <- GET_NEXTP bp;
        put_list_head next);;
  do next <- GET_NEXTP bp;
  do prev <- GET_PREVP bp;
  SET_PREVP next prev.

(** *** Boundary-tag coalescing *)

(** The macros read the heap again at every use, and so does the embedding
    wherever a store lies between two uses.  In the test for the block in
    front, C evaluates [PREV_BLKP(bp) == bp] only when the allocated bit
    read before it is 0; the read it repeats has succeeded already, so it
    is made in both cases here. *)
Definition coalesce (bp : Z) : M Z :=
  do nb <- NEXT_BLKP bp;
  do next_alloc <- GET_ALLOC (HDRP nb);
  do pb <- PREV_BLKP bp;
  do fp <- FTRP pb;
  do pa <- GET_ALLOC fp;
  do pb' <- PREV_BLKP bp;
  let prev_alloc := negb (pa =? 0) || (pb' =? bp) in
  let next_alloc := negb (next_alloc =? 0) in
  do size <- GET_SIZE (HDRP bp);
  do bp <-
    (if prev_alloc && negb next_alloc then
       do nb <- NEXT_BLKP bp;
       do nsz <- GET_SIZE (HDRP nb);
       let size := wrap (size + nsz) in
       do nb <- NEXT_BLKP bp;
       remove_list nb;;
       PUT (HDRP bp) (PACK size 0);;
       do f <- FTRP bp;
       PUT f (PACK size 0);;
       ret bp
     else if negb prev_alloc && next_alloc then
       do pb <- PREV_BLKP bp;
       do psz <- GET_SIZE (HDRP pb);
       let size := wrap (size + psz) in
       do bp <- PREV_BLKP bp;
       remove_list bp;;
       PUT (HDRP bp) (PACK size 0);;
       do f <- FTRP bp;
       PUT f (PACK size 0);;
       ret bp
     else if negb prev_alloc && negb next_alloc then
       do pb <- PREV_BLKP bp;
       do psz <- GET_SIZE (HDRP pb);
       do nb <- NEXT_BLKP bp;
       do nsz <- GET_SIZE (HDRP nb);
       let size := wrap (size + wrap (psz + nsz)) in
       do pb <- PREV_BLKP bp;
       remove_list pb;;
       do nb <- NEXT_BLKP bp;
       remove_list nb;;
       do bp <- PREV_BLKP bp;
       PUT (HDRP bp) (PACK size 0);;
       do f <- FTRP bp;
       PUT f (PACK size 0);;
       ret bp
     else ret bp);
  insert_list bp;;
  ret bp.

(** *** Growing the heap *)

(** The number of bytes [extend_heap] asks the provider for: an even
    number of words. *)
Definition extend_bytes (words : Z) : Z :=
  if negb (words mod 2 =? 0)
  then wrap ((words + 1) * WSIZE) else wrap (words * WSIZE).

Definition extend_heap (words : Z) : M Z :=
  let size := extend_bytes words in
  do bp <- mem_sbrk size;
  if bp =? wrap (-1) then ret 0 else
  PUT (HDRP bp) (PACK size 0);;
  do f <- FTRP bp;
  PUT f (PACK size 0);;
  do nb <- NEXT_BLKP bp;
  PUT (HDRP nb) (PACK 0 1);;
  coalesce bp.

(** *** First fit *)

(** The C loop follows next links until it meets NULL.  A walk that ends
    visits pairwise different nodes inside the heap, so the number of words
    of the heap bounds its length; the bound is the fuel of the loop. *)
Definition heap_fuel (s : state) : nat :=
  S (Z.to_nat ((mem_brk s - mem_lo s) / WSIZE)).

Fixpoint find_fit_loop (fuel : nat) (asize bp : Z) : M Z :=
  match fuel with
  | O => fun _ => OutOfFuel
  | S n =>
      if bp =? 0 then ret 0 else
      do sz <- GET_SIZE (HDRP bp);
      if asize <=? sz then ret bp else
      do nx <- GET_NEXTP bp;
      find_fit_loop n asize nx
  end.

Definition find_fit (asize : Z) : M Z := fun s =>
  find_fit_loop (heap_fuel s) asize (list_head s) s.

(** *** Placement *)

Definition place (bp asize : Z) : M unit :=
  do tempSize <- GET_SIZE (HDRP bp);
  if 4 * WSIZE <=? wrap (tempSize - asize) then
    PUT (HDRP bp) (PACK asize 1);;
    do f <- FTRP bp;
    PUT f (PACK asize 1);;
    remove_list bp;;
    do bp <- NEXT_BLKP bp;
    PUT (HDRP bp) (PACK (wrap (tempSize - asize)) 0);;
    do f <- FTRP bp;
    PUT f (PACK (wrap (tempSize - asize)) 0);;
    insert_list bp
  else
    PUT (HDRP bp) (PACK tempSize 1);;
    do f <- FTRP bp;
    PUT f (PACK tempSize 1);;
    remove_list bp.

(** *** Public operations *)

(** The first half of [mm_init]: the initial [8 * WSIZE] bytes, the
    padding word, prologue and epilogue, and the free-list head placed on
    the epilogue word with a null next link.  Returns whether the provider
    granted the bytes. *)
Definition init_layout : M bool :=
  do p <- mem_sbrk (wrap (8 * WSIZE));
  put_heap_listp p;;
  if p =? wrap (-1) then ret false else
  do hl <- get_heap_listp;
  PUT hl 0;;
  PUT (wrap (hl + 1 * WSIZE)) (PACK DSIZE 1);;
  PUT (wrap (hl + 2 * WSIZE)) (PACK DSIZE 1);;
  PUT (wrap (hl + 3 * WSIZE)) (PACK 0 1);;
  put_list_head (wrap (hl + 3 * WSIZE));;
  do lh <- get_list_head;
  SET_NEXTP lh 0;;
  ret true.

Definition mm_init : M Z :=
  do ok <- init_layout;
  if negb ok then ret (-1) else
  do r <- extend_heap (CHUNKSIZE / WSIZE);
  if r =? 0 then ret (-1) else ret 0.

(** The size adjustment of [mm_malloc], in [size_t] arithmetic. *)
Definition adjust_size (size : Z) : Z :=
  if size <=? DSIZE then wrap (2 * DSIZE)
  else wrap (DSIZE * (wrap (wrap (size + DSIZE) + (DSIZE - 1)) / DSIZE)).

(** The second half of [mm_malloc]: find or make room for a block of the
    adjusted size, place it and return its address. *)
Definition malloc_adjusted (asize : Z) : M Z :=
  do bp <- find_fit asize;
  if negb (bp =? 0) then place bp asize;; ret bp else
  let extendsize := MAX asize CHUNKSIZE in
  do bp <- extend_heap (extendsize / WSIZE);
  if bp =? 0 then ret 0 else
  place bp asize;;
  ret bp.

Definition mm_malloc (size : Z) : M Z :=
  if size =? 0 then ret 0 else
  let asize := adjust_size size in
  malloc_adjusted asize.

Definition mm_free (bp : Z) : M unit :=
  if bp =? 0 then ret tt else
  do size <- GET_SIZE (HDRP bp);
  PUT (HDRP bp) (PACK size 0);;
  do f <- FTRP bp;
  PUT f (PACK size 0);;
  do _r <- coalesce bp;
  ret tt.

(** [(int)size]: the low 32 bits of [size], read as a signed number. *)
Definition to_int (size : Z) : Z :=
  let r := size mod 2 ^ 32 in
  if r <? 2 ^ 31 then r else r - 2 ^ 32.

(** [memcpy] on the word-addressed heap of a little-endian machine: whole
    words first, then the low-order bytes of one more word. *)
Fixpoint memcpy_words (n : nat) (dst src : Z) : M unit :=
  match n with
  | O => ret tt
  | S k =>
      do v <- GET src;
      PUT dst v;;
      memcpy_words k (wrap (dst + WSIZE)) (wrap (src + WSIZE))
  end.

Definition memcpy (dst src n : Z) : M unit :=
  memcpy_words (Z.to_nat (n / WSIZE)) dst src;;
  let r := n mod WSIZE in
  if r =? 0 then ret tt else
  let off := WSIZE * (n / WSIZE) in
  do v <- GET (wrap (src + off));
  do old <- GET (wrap (dst + off));
  PUT (wrap (dst + off))
      (Z.lor (Z.land v (Z.ones (8 * r))) (Z.ldiff old (Z.ones (8 * r)))).

Definition mm_realloc (ptr size : Z) : M Z :=
  if to_int size =? 0 then
    mm_free ptr;; ret 0
  else if to_int size <? 0 then ret 0
  else if ptr =? 0 then mm_malloc size
  else if size >? 0 then
    do presize <- GET_SIZE (HDRP ptr);
    let reqsize := wrap (size + 2 * WSIZE) in
    if reqsize <=? presize then ret ptr
    else
      do nb <- NEXT_BLKP ptr;
      do next_alloc <- GET_ALLOC (HDRP nb);
      let grow : M (option Z) :=
        if next_alloc =? 0 then
          do nb <- NEXT_BLKP ptr;
          do nsz <- GET_SIZE (HDRP nb);
          let tempSize := wrap (presize + nsz) in
          if reqsize <=? tempSize then ret (Some tempSize) else ret None
        else ret None in
      do g <- grow;
      match g with
      | Some tempSize =>
          do nb <- NEXT_BLKP ptr;
          remove_list nb;;
          PUT (HDRP ptr) (PACK tempSize 1);;
          do f <- FTRP ptr;
          PUT f (PACK tempSize 1);;
          ret ptr
      | None =>
          do tempptr <- mm_malloc reqsize;
          place tempptr reqsize;;
          memcpy tempptr ptr reqsize;;
          mm_free ptr;;
          ret tempptr
      end
  else ret 0.

(** *** The consistency checker's walks *)

(** The implicit walk of [check_free_blocks], started at [bp]: the free
    blocks met before the first header of size 0. *)
Fixpoint heap_walk (fuel : nat) (bp : Z) : M (list Z) :=
  match fuel with
  | O => fun _ => OutOfFuel
  | S n =>
      do sz <- GET_SIZE (HDRP bp);
      if sz >? 0 then
        do a <- GET_ALLOC (HDRP bp);
        do nb <- NEXT_BLKP bp;
        do rest <- heap_walk n nb;
        ret (if a =? 0 then bp :: rest else rest)
      else ret []
  end.

(** The walk of the free list from [bp] along the next links. *)
Fixpoint list_walk (fuel : nat) (bp : Z) : M (list Z) :=
  match fuel with
  | O => fun _ => OutOfFuel
  | S n =>
      if bp =? 0 then ret [] else
      do nx <- GET_NEXTP bp;
      do rest <- list_walk n nx;
      ret (bp :: rest)
  end.

(** [check_free_blocks]: the two counters and whether they agree (the C
    code prints an error when they do not). *)
Definition check_free_blocks : M (Z * Z * bool) := fun s =>
  (do hl <- get_heap_listp;
   do hs <- heap_walk (heap_fuel s) hl;
   do lh <- get_list_head;
   do ls <- list_walk (heap_fuel s) lh;
   let heapCount := Z.of_nat (length hs) in
   let listCount := Z.of_nat (length ls) in
   ret (heapCount, listCount, heapCount =? listCount)) s.

End Allocator.

(** ** Sequences of calls *)

Inductive call :=
  | Malloc (size : Z)
  | Free (bp : Z)
  | Realloc (ptr size : Z).

(** Runs the calls in order and collects what each returned ([mm_free]
    returns nothing, recorded as 0). *)
Fixpoint run_calls (W : Z) (cs : list call) : M (list Z) :=
  match cs with
  | [] => ret []
  | c :: cs' =>
      do r <- match c with
              | Malloc size => mm_malloc W size
              | Free bp => mm_free W bp;; ret 0
              | Realloc ptr size => mm_realloc W ptr size
              end;
      do rs <- run_calls W cs';
      ret (r :: rs)
  end.

(** A fresh provider: an empty heap starting at [lo], with room up to
    [max], its memory holding [m]. *)
Definition fresh (m : gmap Z Z) (lo max : Z) : state := mkState m lo lo max 0 0.

(** [mm_init] followed by a sequence of calls. *)
Definition session (W : Z) (cs : list call) : M (list Z) :=
  do r <- mm_init W;
  if r =? 0 then run_calls W cs else ret [].

Definition state_of {A} (r : result A) (d : state) : state :=
  match r with Ok _ s => s | _ => d end.
Definition returned {A} (r : result A) : option A :=
  match r with Ok a _ => Some a | _ => None end.

(** ** Postconditions used in the statements *)

(** [s'] is [s] with [bp] pushed at the head of the free list. *)
Definition pushed_at_head (W : Z) (s : state) (bp : Z) (s' : state) : Prop :=
  load W (wrap W (bp + W)) s' = Some (list_head s) /\
  load W (list_head s) s' = Some bp /\
  load W bp s' = Some 0 /\
  list_head s' = bp /\
  (forall a, a <> wrap W (bp + W) -> a <> list_head s -> a <> bp ->
             load W a s' = load W a s).

(** [s'] is [s] with a node whose links were [prev] and [next] spliced out
    of the free list. *)
Definition spliced_out (W : Z) (s : state) (prev next : Z) (s' : state) : Prop :=
  load W next s' = Some prev /\
  list_head s' = (if prev =? 0 then next else list_head s) /\
  (prev <> 0 -> next <> wrap W (prev + W) ->
   load W (wrap W (prev + W)) s' = Some next) /\
  (forall a, a <> wrap W (prev + W) -> a <> next -> load W a s' = load W a s).

(** The link words of node [x] are neither the header of [bp] nor the word
    in front of it (the footer of the block before [bp]). *)
Definition avoids_tags (W bp x : Z) : Prop :=
  x <> HDRP W bp /\ wrap W (x + W) <> HDRP W bp /\
  x <> wrap W (bp - DSIZE W) /\ wrap W (x + W) <> wrap W (bp - DSIZE W).

(** The free-list neighbours of the blocks [prev] and [next] keep their
    links clear of the boundary tags around [bp]. *)
Definition links_avoid_tags (W : Z) (s : state) (bp prev next : Z) : Prop :=
  forall x,
    load W prev s = Some x \/ load W (wrap W (prev + W)) s = Some x \/
    load W next s = Some x \/ load W (wrap W (next + W)) s = Some x ->
    avoids_tags W bp x.

(** [s'] is [s] grown by a free block of [size] bytes whose payload starts
    at the old heap top [bp], followed by a new epilogue header. *)
Definition block_laid_out (W : Z) (s : state) (bp size : Z) (s' : state) : Prop :=
  mem_brk s' = bp + size /\
  load W (bp - W) s' = Some (PACK size 0) /\
  load W (bp + size - DSIZE W) s' = Some (PACK size 0) /\
  load W (mem_brk s' - W) s' = Some (PACK 0 1) /\
  (forall a, a <> bp - W -> a <> bp + size - DSIZE W -> a <> bp + size - W ->
             mem s' !! a = mem s !! a) /\
  mem_lo s' = mem_lo s /\ list_head s' = list_head s /\ heap_listp s' = heap_listp s.

(** ** A concrete heap for examples

    A provider whose region starts at address 4096, may grow to 1 MiB and
    holds zeroes.  [after W cs] is the heap once [mm_init] and the calls
    [cs] have run on it. *)
Definition heap0 : state := fresh ∅ 4096 1048576.
Definition after (W : Z) (cs : list call) : state :=
  state_of (session W cs heap0) heap0.

(** The stores [mm_free] makes before it calls [coalesce]: header and
    footer of [bp] rewritten with the allocated bit cleared. *)
Definition mark_free (W bp : Z) : M unit :=
  do size <- GET_SIZE W (HDRP W bp);
  PUT W (HDRP W bp) (PACK size 0);;
  do f <- FTRP W bp;
  PUT W f (PACK size 0).

(** Four blocks of 48 bytes at 4160, 4208, 4256 and 4304; the first and the
    third were freed, and the second has just been marked free: the heap
    [mm_free 4208] hands to [coalesce]. *)
Definition heap_both_free : state :=
  state_of
    (mark_free 8 4208
       (after 8 [Malloc 32; Malloc 32; Malloc 32; Malloc 32; Free 4160; Free 4256]))
    heap0.

(** The same four blocks with the first and the third freed. *)
Definition heap_two_freed : state :=
  after 8 [Malloc 32; Malloc 32; Malloc 32; Malloc 32; Free 4160; Free 4256].

(** Two blocks of 48 bytes at 4160 and 4208, and the heap in the middle of
    [mm_realloc 4160 100]: [mm_malloc 116] has returned the block at 4256. *)
Definition heap_two_blocks : state := after 8 [Malloc 32; Malloc 32].
Definition heap_mid_realloc : state :=
  state_of (mm_malloc 8 116 heap_two_blocks) heap0.

(** ** The consistency checker

    The checker prints its findings; the embedding returns them, in the
    order they would be printed. *)

Inductive report :=
  | HeapLine (hl : Z)                       (* "Heap (%p):" *)
  | BadPrologue                             (* "Bad prologue header" *)
  | BadEpilogue                             (* "Bad epilogue header" *)
  | NotAligned (bp : Z)                     (* "... is not doubleword aligned" *)
  | HeaderFooterMismatch                    (* "header does not match footer" *)
  | OutOfBounds                             (* "Block out of heap boundaries." *)
  | AllocatedInFreeList                     (* "allocated block in free list!" *)
  | MissedCoalescing                        (* "A block missed during Coalescing." *)
  | CountMismatch                           (* the message of check_free_blocks *)
  | EndOfHeap (bp : Z)                      (* "%p: end of heap" *)
  | BlockLine (bp hsize halloc fsize falloc : Z).  (* the line of printblock *)

Section Checker.

Variable WSIZE : Z.

(** Modelled from the spec: the bounds [mem_heap_lo] and [mem_heap_hi] of
    memlib, which is not part of the sources: the lowest and the highest
    valid address of the heap, both inclusive. *)
Definition mem_heap_lo : M Z := fun s => Ok (mem_lo s) s.
Definition mem_heap_hi : M Z := fun s => Ok (mem_brk s - 1) s.

Definition in_heap (p : Z) : M (list report) :=
  do hi <- mem_heap_hi;
  do lo <- mem_heap_lo;
  ret (if negb ((p <=? hi) && (lo <=? p)) then [OutOfBounds] else []).

Definition checkblock (bp : Z) : M (list report) :=
  let r1 := if negb (bp mod DSIZE WSIZE =? 0) then [NotAligned bp] else [] in
  do h <- GET WSIZE (HDRP WSIZE bp);
  do fa <- FTRP WSIZE bp;
  do f <- GET WSIZE fa;
  ret (r1 ++ if negb (h =? f) then [HeaderFooterMismatch] else []).

(** [printblock] first runs [checkheap(false)], here [ch]. *)
Definition printblock_with (ch : M (list report)) (bp : Z) : M (list report) :=
  do r <- ch;
  do hsize <- GET_SIZE WSIZE (HDRP WSIZE bp);
  do halloc <- GET_ALLOC WSIZE (HDRP WSIZE bp);
  do fa <- FTRP WSIZE bp;
  do fsize <- GET_SIZE WSIZE fa;
  do fa <- FTRP WSIZE bp;
  do falloc <- GET_ALLOC WSIZE fa;
  if hsize =? 0 then ret (r ++ [EndOfHeap bp])
  else ret (r ++ [BlockLine bp hsize halloc fsize falloc]).

(** The loops of the checker that call [printblock], here [pb]. *)
Fixpoint check_free_list_loop (pb : Z -> M (list report)) (fuel : nat) (bp : Z)
  : M (list report) :=
  match fuel with
  | O => fun _ => OutOfFuel
  | S n =>
      if bp =? 0 then ret [] else
      do a <- GET_ALLOC WSIZE bp;
      do r <- (if negb (a =? 0)
               then do p <- pb bp; ret (AllocatedInFreeList :: p)
               else ret []);
      do nx <- GET_NEXTP WSIZE bp;
      do rest <- check_free_list_loop pb n nx;
      ret (r ++ rest)
  end.

Definition check_free_list_with (pb : Z -> M (list report)) : M (list report) :=
  fun s => check_free_list_loop pb (heap_fuel WSIZE s) (list_head s) s.

Fixpoint check_coalescing_inner (pb : Z -> M (list report)) (fuel : nat) (bp temp : Z)
  : M (list report) :=
  match fuel with
  | O => fun _ => OutOfFuel
  | S n =>
      if temp =? 0 then ret [] else
      do nb <- NEXT_BLKP WSIZE bp;
      do r <- (if nb =? temp
               then do p1 <- pb bp; do p2 <- pb temp;
                    ret (MissedCoalescing :: p1 ++ p2)
               else ret []);
      do nx <- GET_NEXTP WSIZE temp;
      do rest <- check_coalescing_inner pb n bp nx;
      ret (r ++ rest)
  end.

Fixpoint check_coalescing_outer (pb : Z -> M (list report)) (fuel : nat) (bp : Z)
  : M (list report) :=
  match fuel with
  | O => fun _ => OutOfFuel
  | S n =>
      if bp =? 0 then ret [] else
      do r <- (fun s => check_coalescing_inner pb (heap_fuel WSIZE s) bp (list_head s) s);
      do nx <- GET_NEXTP WSIZE bp;
      do rest <- check_coalescing_outer pb n nx;
      ret (r ++ rest)
  end.

Definition check_coalescing_with (pb : Z -> M (list report)) : M (list report) :=
  fun s => check_coalescing_outer pb (heap_fuel WSIZE s) (list_head s) s.

(** The walk of [checkheap] over the blocks; returns the reports and the
    block pointer the walk stopped at. *)
Fixpoint checkheap_loop (pb : Z -> M (list report)) (verbose : bool) (fuel : nat)
  (bp : Z) : M (list report * Z) :=
  match fuel with
  | O => fun _ => OutOfFuel
  | S n =>
      do sz <- GET_SIZE WSIZE (HDRP WSIZE bp);
      if sz >? 0 then
        do r1 <- (if verbose then pb bp else ret []);
        do r2 <- checkblock bp;
        do nb <- NEXT_BLKP WSIZE bp;
        do rest <- checkheap_loop pb verbose n nb;
        ret (r1 ++ r2 ++ fst rest, snd rest)
      else ret ([], bp)
  end.

Definition checkheap_with (pb : Z -> M (list report)) (verbose : bool)
  : M (list report) :=
  do hl <- get_heap_listp;
  let r0 := if verbose then [HeapLine hl] else [] in
  do hl <- get_heap_listp;
  do psz <- GET_SIZE WSIZE (HDRP WSIZE hl);
  do bad <- (if negb (psz =? DSIZE WSIZE) then ret true
             else do hl <- get_heap_listp;
                  do pa <- GET_ALLOC WSIZE (HDRP WSIZE hl);
                  ret (pa =? 0));
  let r1 := if bad : bool then [BadPrologue] else [] in
  do hl <- get_heap_listp;
  do r2 <- checkblock hl;
  do hl <- get_heap_listp;
  do w <- (fun s => checkheap_loop pb verbose (heap_fuel WSIZE s) hl s);
  let bp := snd w in
  do r3 <- (if verbose then pb bp else ret []);
  do esz <- GET_SIZE WSIZE (HDRP WSIZE bp);
  do bade <- (if negb (esz =? 0) then ret true
              else do ea <- GET_ALLOC WSIZE (HDRP WSIZE bp); ret (ea =? 0));
  let r4 := if bade : bool then [BadEpilogue] else [] in
  do r5 <- in_heap bp;
  do r6 <- check_coalescing_with pb;
  do r7 <- check_free_list_with pb;
  do c <- check_free_blocks WSIZE;
  let r8 := if snd c then [] else [CountMismatch] in
  ret (r0 ++ r1 ++ r2 ++ fst w ++ r3 ++ r4 ++ r5 ++ r6 ++ r7 ++ r8).

(** [checkheap] and [printblock] call each other; [depth] bounds the
    nesting of these calls. *)
Fixpoint checkheap (depth : nat) (verbose : bool) : M (list report) :=
  match depth with
  | O => fun _ => OutOfFuel
  | S k => checkheap_with (printblock_with (checkheap k false)) verbose
  end.

Definition printblock (depth : nat) (bp : Z) : M (list report) :=
  printblock_with (checkheap depth false) bp.

Definition check_free_list (depth : nat) : M (list report) :=
  check_free_list_with (printblock depth).

End Checker.

(** ** Notions used in the further statements *)

(** From [s] to [s'] the heap kept its base, its limit and [heap_listp],
    and did not shrink. *)
Definition grows (s s' : state) : Prop :=
  mem_lo s' = mem_lo s /\ mem_max s' = mem_max s /\
  heap_listp s' = heap_listp s /\ mem_brk s <= mem_brk s'.

(** The nodes [l] are chained by their next links, from [p] up to [q]. *)
Fixpoint linked_to (W : Z) (s : state) (p : Z) (l : list Z) (q : Z) : Prop :=
  match l with
  | [] => p = q
  | x :: l' =>
      p = x /\ x <> 0 /\
      exists n, load W (wrap W (x + W)) s = Some n /\ linked_to W s n l' q
  end.

(** The nodes of [l] are addresses that leave room for two link words,
    and different nodes lie at least a double word apart, so that their
    link words do not overlap. *)
Definition nodes_apart (W : Z) (l : list Z) : Prop :=
  (forall x, In x l -> DSIZE W <= x <= 2 ^ wbits W - DSIZE W) /\
  (forall x y, In x l -> In y l -> x <> y ->
               x + DSIZE W <= y \/ y + DSIZE W <= x).

(** A provider with room for the first chunk only, after [mm_init]. *)
Definition heap_full : state :=
  state_of (mm_init 8 (fresh ∅ 4096 (4096 + 64 + 4096))) heap0.

(** [m] keeps the heap's base, limit and [heap_listp] and does not shrink
    the heap, whenever it returns. *)
Definition keeps {A} (m : M A) : Prop :=
  forall s a s', m s = Ok a s' -> grows s s'.

(** [r] is what a first-fit search for [asize] bytes over the nodes [l]
    finds: null when no node is large enough, otherwise the first node
    that is. *)
Definition first_fit_of (W : Z) (s : state) (asize : Z) (l : list Z) (r : Z) : Prop :=
  (r = 0 /\
   forall x h, In x l -> load W (HDRP W x) s = Some h -> size_of W h < asize) \/
  (exists l1 l2 h,
     l = l1 ++ r :: l2 /\ load W (HDRP W r) s = Some h /\ asize <= size_of W h /\
     forall x h', In x l1 -> load W (HDRP W x) s = Some h' -> size_of W h' < asize).

(** ** Basic facts: the monad, word accesses, size fields *)

Lemma bind_unfold {A B} (m : M A) (k : A -> M B) s :
  bind m k s = match m s with
               | Ok a s' => k a s'
               | Fault => Fault
               | OutOfFuel => OutOfFuel
               end.
Proof. reflexivity. Qed.

Lemma bind_Ok {A B} (m : M A) (k : A -> M B) s a s' :
  m s = Ok a s' -> bind m k s = k a s'.
Proof. intros E. unfold bind. now rewrite E. Qed.

Lemma bind_Fault {A B} (m : M A) (k : A -> M B) s :
  m s = Fault -> bind m k s = Fault.
Proof. intros E. unfold bind. now rewrite E. Qed.

Lemma bind_OutOfFuel {A B} (m : M A) (k : A -> M B) s :
  m s = OutOfFuel -> bind m k s = OutOfFuel.
Proof. intros E. unfold bind. now rewrite E. Qed.

Lemma bind_ret_l {A B} (a : A) (k : A -> M B) s : bind (ret a) k s = k a s.
Proof. reflexivity. Qed.

Lemma bind_assoc {A B C} (m : M A) (k1 : A -> M B) (k2 : B -> M C) s :
  bind (bind m k1) k2 s = bind m (fun x => bind (k1 x) k2) s.
Proof. unfold bind. destruct (m s); reflexivity. Qed.

(** Case split on the two word sizes, with the constants computed. *)
Ltac w_norm :=
  repeat first
    [ progress change (DSIZE 4) with 8 in *
    | progress change (DSIZE 8) with 16 in *
    | progress change (2 ^ wbits 4) with 4294967296 in *
    | progress change (2 ^ wbits 8) with 18446744073709551616 in * ].
Ltac w_cases H := destruct H; subst; unfold wrap in *; w_norm.
Ltac w_lia H := w_cases H; Z.div_mod_to_equations; lia.

(** Closed facts about the example heaps, settled by evaluation. *)
Ltac conj_split := repeat match goal with |- _ /\ _ => split end.
Ltac by_eval :=
  first [ vm_compute; reflexivity
        | vm_compute; discriminate
        | let H := fresh in intro H; vm_compute in H; discriminate H ].
Ltac eval_all := conj_split; by_eval.

Section Facts.

Variable W : Z.
Hypothesis HW : W = 4 \/ W = 8.

Lemma GET_load p s v : load W p s = Some v -> GET W p s = Ok v s.
Proof. intros E. unfold GET. now rewrite E. Qed.

Lemma GET_fault p s : load W p s = None -> GET W p s = Fault.
Proof. intros E. unfold GET. now rewrite E. Qed.

Lemma bind_GET {B} p (k : Z -> M B) s v :
  load W p s = Some v -> bind (GET W p) k s = k v s.
Proof. intros E. apply bind_Ok. now apply GET_load. Qed.

Lemma bind_GET_SIZE {B} p (k : Z -> M B) s v :
  load W p s = Some v -> bind (GET_SIZE W p) k s = k (size_of W v) s.
Proof. intros E. unfold GET_SIZE. rewrite bind_unfold, (bind_GET _ _ _ _ E). reflexivity. Qed.

Lemma bind_GET_ALLOC {B} p (k : Z -> M B) s v :
  load W p s = Some v -> bind (GET_ALLOC W p) k s = k (alloc_of v) s.
Proof. intros E. unfold GET_ALLOC. rewrite bind_unfold, (bind_GET _ _ _ _ E). reflexivity. Qed.

Lemma bind_NEXT_BLKP {B} bp (k : Z -> M B) s h :
  load W (HDRP W bp) s = Some h ->
  bind (NEXT_BLKP W bp) k s = k (wrap W (bp + size_of W h)) s.
Proof. intros E. unfold NEXT_BLKP. rewrite bind_unfold, (bind_GET_SIZE _ _ _ _ E). reflexivity. Qed.

Lemma bind_PREV_BLKP {B} bp (k : Z -> M B) s f :
  load W (wrap W (bp - DSIZE W)) s = Some f ->
  bind (PREV_BLKP W bp) k s = k (wrap W (bp - size_of W f)) s.
Proof. intros E. unfold PREV_BLKP. rewrite bind_unfold, (bind_GET_SIZE _ _ _ _ E). reflexivity. Qed.

Lemma bind_FTRP {B} bp (k : Z -> M B) s h :
  load W (HDRP W bp) s = Some h ->
  bind (FTRP W bp) k s = k (wrap W (wrap W (bp + size_of W h) - DSIZE W)) s.
Proof. intros E. unfold FTRP. rewrite bind_unfold, (bind_GET_SIZE _ _ _ _ E). reflexivity. Qed.

(** A store changes the word it writes and nothing else. *)
Lemma PUT_inv p v s s' :
  PUT W p v s = Ok tt s' ->
  valid_addr W p s = true /\ s' = set_mem (<[p := v]> (mem s)) s.
Proof. unfold PUT. destruct (valid_addr W p s); intros E; inversion E; auto. Qed.

Lemma PUT_valid p v s :
  valid_addr W p s = true -> PUT W p v s = Ok tt (set_mem (<[p := v]> (mem s)) s).
Proof. intros E. unfold PUT. now rewrite E. Qed.

Lemma PUT_invalid p v s : valid_addr W p s = false -> PUT W p v s = Fault.
Proof. intros E. unfold PUT. now rewrite E. Qed.

Lemma PUT_cases p v s :
  (valid_addr W p s = true /\ PUT W p v s = Ok tt (set_mem (<[p := v]> (mem s)) s))
  \/ (valid_addr W p s = false /\ PUT W p v s = Fault).
Proof. unfold PUT. destruct (valid_addr W p s); auto. Qed.

Lemma load_set_mem_eq p v s :
  valid_addr W p s = true -> load W p (set_mem (<[p := v]> (mem s)) s) = Some v.
Proof.
  intros E. unfold load. change (valid_addr W p (set_mem _ s)) with (valid_addr W p s).
  rewrite E. simpl. now rewrite lookup_insert_eq.
Qed.

Lemma load_set_mem_ne p q v s :
  p <> q -> load W q (set_mem (<[p := v]> (mem s)) s) = load W q s.
Proof.
  intros E. unfold load. change (valid_addr W q (set_mem _ s)) with (valid_addr W q s).
  simpl. now rewrite lookup_insert_ne.
Qed.

Lemma load_set_list_head a p s : load W a (set_list_head p s) = load W a s.
Proof. reflexivity. Qed.

(** *** The size field *)

Lemma mask_eq :
  wrap W (Z.lnot (DSIZE W - 1)) = Z.land (Z.ones (wbits W)) (Z.lnot (Z.ones (Z.log2 (DSIZE W)))).
Proof. destruct HW; subst; reflexivity. Qed.

Lemma size_of_eq v :
  size_of W v = DSIZE W * ((v mod 2 ^ wbits W) / DSIZE W).
Proof.
  unfold size_of. rewrite mask_eq, Z.land_assoc, <- Z.ldiff_land.
  rewrite Z.land_ones, Z.ldiff_ones_r, Z.shiftl_mul_pow2, Z.shiftr_div_pow2
    by (destruct HW; subst; discriminate).
  replace (2 ^ Z.log2 (DSIZE W)) with (DSIZE W) by (destruct HW; subst; reflexivity).
  apply Z.mul_comm.
Qed.

Lemma is_size_size_of v : is_size W (size_of W v).
Proof.
  rewrite size_of_eq. unfold is_size. w_lia HW.
Qed.

Lemma is_size_wrap_add a b : is_size W a -> is_size W b -> is_size W (wrap W (a + b)).
Proof.
  unfold is_size. w_lia HW.
Qed.

Lemma size_of_is_size n : is_size W n -> size_of W n = n.
Proof.
  rewrite size_of_eq. unfold is_size. w_lia HW.
Qed.

Lemma PACK_0 n : PACK n 0 = n.
Proof. apply Z.lor_0_r. Qed.

Lemma PACK_1 n : is_size W n -> PACK n 1 = n + 1.
Proof.
  intros [Hr Hm]. unfold PACK. symmetry. apply Z.add_nocarry_lor.
  change 1 with (Z.ones 1). rewrite Z.land_ones by lia.
  change (2 ^ 1) with 2. w_lia HW.
Qed.

Lemma size_of_PACK_1 n : is_size W n -> size_of W (PACK n 1) = n.
Proof.
  intros H. rewrite (PACK_1 _ H), size_of_eq. destruct H as [Hr Hm]. w_lia HW.
Qed.

Lemma alloc_of_PACK_1 n : is_size W n -> alloc_of (PACK n 1) = 1.
Proof.
  intros H. rewrite (PACK_1 _ H). destruct H as [Hr Hm]. unfold alloc_of.
  change 1 with (Z.ones 1) at 2. rewrite Z.land_ones by lia. change (2 ^ 1) with 2.
  w_lia HW.
Qed.

(** *** The free-list operations, step by step *)

Lemma valid_addr_0 s : 0 < mem_lo s -> valid_addr W 0 s = false.
Proof.
  intros H. unfold valid_addr.
  destruct (mem_lo s <=? 0) eqn:E; [apply Z.leb_le in E; lia | reflexivity].
Qed.

Lemma load_after_PUT p v s s' q :
  PUT W p v s = Ok tt s' ->
  load W q s' = if decide (q = p) then Some v else load W q s.
Proof.
  intros E. apply PUT_inv in E as [Hv ->].
  destruct (decide (q = p)) as [-> | Hne].
  - now apply load_set_mem_eq.
  - apply load_set_mem_ne. congruence.
Qed.

Lemma valid_after_PUT p v s s' q :
  PUT W p v s = Ok tt s' -> valid_addr W q s' = valid_addr W q s.
Proof. intros E. apply PUT_inv in E as [_ ->]. reflexivity. Qed.

Lemma head_after_PUT p v s s' :
  PUT W p v s = Ok tt s' -> list_head s' = list_head s.
Proof. intros E. apply PUT_inv in E as [_ ->]. reflexivity. Qed.

(** [remove_list] in terms of the two links it finds: the reads it repeats
    are resolved, the stores are kept in program order. *)
Lemma remove_list_eq bp s prev next :
  load W bp s = Some prev ->
  load W (wrap W (bp + W)) s = Some next ->
  remove_list W bp s =
    (if prev =? 0
     then put_list_head next;; PUT W next 0
     else PUT W (wrap W (prev + W)) next;;
          PUT W next (if decide (bp = wrap W (prev + W)) then next else prev)) s.
Proof.
  intros Hp Hn. unfold remove_list, GET_PREVP, GET_NEXTP, SET_NEXTP, SET_PREVP.
  rewrite (bind_GET _ _ _ _ Hp).
  destruct (prev =? 0) eqn:E0; cbn [negb].
  - apply Z.eqb_eq in E0. subst prev.
    unfold bind, GET, put_list_head. rewrite Hn.
    change (load W (wrap W (bp + W)) (set_list_head next s))
      with (load W (wrap W (bp + W)) s).
    rewrite Hn.
    change (load W bp (set_list_head next s)) with (load W bp s).
    rewrite Hp. reflexivity.
  - rewrite bind_unfold, (bind_GET _ _ _ _ Hp), (bind_GET _ _ _ _ Hn).
    rewrite (bind_unfold (PUT W _ _) _ s).
    destruct (PUT W (wrap W (prev + W)) next s) as [[] s1 | |] eqn:E1; try reflexivity.
    rewrite bind_GET with (v := next).
    2:{ rewrite (load_after_PUT _ _ _ _ _ E1). destruct (decide _); auto. }
    rewrite bind_GET
      with (v := if decide (bp = wrap W (prev + W)) then next else prev).
    2:{ rewrite (load_after_PUT _ _ _ _ _ E1). destruct (decide _); auto. }
    reflexivity.
Qed.

(** What a successful [remove_list] leaves behind: only the two link words
    it stores to can differ, and they hold one of the two links read. *)
Lemma remove_list_frame bp s s' prev next :
  load W bp s = Some prev ->
  load W (wrap W (bp + W)) s = Some next ->
  remove_list W bp s = Ok tt s' ->
  (forall a, valid_addr W a s' = valid_addr W a s) /\
  (forall a, a <> wrap W (prev + W) -> a <> next -> load W a s' = load W a s) /\
  (forall a v, load W a s' = Some v -> load W a s = Some v \/ v = next \/ v = prev).
Proof.
  intros Hp Hn E. rewrite (remove_list_eq _ _ _ _ Hp Hn) in E.
  destruct (prev =? 0) eqn:E0.
  - apply Z.eqb_eq in E0. subst prev.
    rewrite bind_unfold in E. unfold put_list_head in E.
    pose proof (load_after_PUT _ _ _ _ ltac:(eassumption) E) as L.
    pose proof (valid_after_PUT _ _ _ _ ltac:(eassumption) E) as V.
    repeat split.
    + intros a. apply (valid_after_PUT _ _ _ _ a E).
    + intros a _ Ha. rewrite (load_after_PUT _ _ _ _ a E).
      destruct (decide (a = next)); [contradiction | reflexivity].
    + intros a v. rewrite (load_after_PUT _ _ _ _ a E).
      destruct (decide (a = next)); intros Hv; [inversion Hv; auto | auto].
  - rewrite bind_unfold in E.
    destruct (PUT W (wrap W (prev + W)) next s) as [[] s1 | |] eqn:E1; try discriminate.
    repeat split.
    + intros a. rewrite (valid_after_PUT _ _ _ _ a E). apply (valid_after_PUT _ _ _ _ a E1).
    + intros a Ha1 Ha2. rewrite (load_after_PUT _ _ _ _ a E).
      destruct (decide (a = next)); [contradiction |].
      rewrite (load_after_PUT _ _ _ _ a E1).
      destruct (decide (a = wrap W (prev + W))); [contradiction | reflexivity].
    + intros a v. rewrite (load_after_PUT _ _ _ _ a E).
      destruct (decide (a = next)).
      * destruct (decide (bp = _)); intros Hv; inversion Hv; auto.
      * rewrite (load_after_PUT _ _ _ _ a E1).
        destruct (decide (a = wrap W (prev + W))); intros Hv; [inversion Hv; auto | auto].
Qed.

Lemma remove_list_Ok_links bp s s' :
  remove_list W bp s = Ok tt s' ->
  exists prev next, load W bp s = Some prev /\ load W (wrap W (bp + W)) s = Some next.
Proof.
  unfold remove_list, GET_PREVP. rewrite bind_unfold. unfold GET at 1.
  destruct (load W bp s) as [prev|] eqn:Hp; [| discriminate].
  intros E. exists prev.
  destruct (load W (wrap W (bp + W)) s) as [next|] eqn:Hn; [eauto |].
  exfalso. revert E. unfold GET_NEXTP.
  destruct (negb (prev =? 0)).
  - rewrite bind_unfold, (bind_GET _ _ _ _ Hp), bind_unfold, (GET_fault _ _ Hn).
    discriminate.
  - rewrite bind_unfold, bind_unfold, (GET_fault _ _ Hn). discriminate.
Qed.

Lemma wrap_add_W_ne bp : wrap W (bp + W) <> bp.
Proof. w_lia HW. Qed.

(** [insert_list] as its three stores and the new head. *)
Lemma insert_list_eq bp s :
  insert_list W bp s =
    (PUT W (wrap W (bp + W)) (list_head s);;
     PUT W (list_head s) bp;;
     PUT W bp 0;;
     put_list_head bp) s.
Proof.
  unfold insert_list, SET_NEXTP, SET_PREVP, get_list_head.
  rewrite bind_unfold. cbv beta iota.
  rewrite !(bind_unfold (PUT W (wrap W (bp + W)) (list_head s)) _ s).
  destruct (PUT W (wrap W (bp + W)) (list_head s) s) as [[] s1 | |] eqn:E1; try reflexivity.
  rewrite bind_unfold. cbv beta iota. now rewrite (head_after_PUT _ _ _ _ E1).
Qed.

End Facts.

(** ** The embedding on the usual scenarios

    First fit reuses the block freed last; three neighbours freed in the
    order first, third, second merge into one block; a block grows in
    place into a free successor and the next request has to extend the
    heap; five requests of 1024 bytes exceed the first chunk. *)

Example reuse_of_freed_block :
  returned (session 8 [Malloc 24; Malloc 24; Free 4160; Malloc 24] heap0)
    = Some [4160; 4208; 0; 4160].
Proof. by_eval. Qed.

Example merge_of_three_neighbours :
  returned (session 8 [Malloc 24; Malloc 24; Malloc 24;
                       Free 4160; Free 4256; Free 4208] heap0)
    = Some [4160; 4208; 4256; 0; 0; 0] /\
  load 8 (HDRP 8 4160)
    (after 8 [Malloc 24; Malloc 24; Malloc 24; Free 4160; Free 4256; Free 4208])
    = Some (PACK 4096 0).
Proof. eval_all. Qed.

Example growth_in_place :
  returned (session 8 [Malloc 32; Malloc 32; Free 4208; Realloc 4160 48; Malloc 32] heap0)
    = Some [4160; 4208; 0; 4160; 8256].
Proof. by_eval. Qed.

Example heap_extension :
  returned (session 8 [Malloc 1024; Malloc 1024; Malloc 1024; Malloc 1024; Malloc 1024]
              heap0)
    = Some [4160; 5200; 6240; 7280; 8320] /\
  mem_brk (after 8 [Malloc 1024; Malloc 1024; Malloc 1024; Malloc 1024; Malloc 1024])
    = 4096 + 8 * 8 + 2 * 4096.
Proof. eval_all. Qed.

(** [mm_free] marks the block free and hands it to [coalesce]. *)
Lemma mm_free_eq W bp s :
  bp <> 0 ->
  mm_free W bp s = (mark_free W bp;; do _r <- coalesce W bp; ret tt) s.
Proof.
  intros H. unfold mm_free, mark_free.
  destruct (bp =? 0) eqn:E; [apply Z.eqb_eq in E; contradiction |].
  rewrite !bind_unfold. destruct (GET_SIZE W (HDRP W bp) s) as [sz s1 | |]; try reflexivity.
  rewrite !bind_unfold. destruct (PUT W (HDRP W bp) (PACK sz 0) s1) as [[] s2 | |];
    try reflexivity.
  rewrite !bind_unfold. destruct (FTRP W bp s2) as [f s3 | |]; reflexivity.
Qed.

(** ** The free list: [insert_list] and [remove_list] *)

Lemma insert_list_post W s bp :
  W = 4 \/ W = 8 ->
  list_head s <> bp -> list_head s <> wrap W (bp + W) ->
  if valid_addr W (wrap W (bp + W)) s && valid_addr W (list_head s) s
     && valid_addr W bp s
  then exists s', insert_list W bp s = Ok tt s' /\ pushed_at_head W s bp s'
  else insert_list W bp s = Fault.
Proof.
  intros HW Hh1 Hh2. pose proof (wrap_add_W_ne W HW bp) as Hb.
  rewrite insert_list_eq.
  destruct (PUT_cases W (wrap W (bp + W)) (list_head s) s) as [[V1 E1] | [V1 E1]];
    rewrite V1; cbn [andb]; [| now rewrite (bind_Fault _ _ _ E1)].
  rewrite (bind_Ok _ _ _ _ _ E1).
  set (s1 := set_mem _ s) in *.
  destruct (PUT_cases W (list_head s) bp s1) as [[V2 E2] | [V2 E2]];
    rewrite (valid_after_PUT _ _ _ _ _ _ E1) in V2; rewrite V2; cbn [andb];
    [| now rewrite (bind_Fault _ _ _ E2)].
  rewrite (bind_Ok _ _ _ _ _ E2).
  set (s2 := set_mem _ s1) in *.
  destruct (PUT_cases W bp 0 s2) as [[V3 E3] | [V3 E3]];
    rewrite (valid_after_PUT _ _ _ _ _ _ E2), (valid_after_PUT _ _ _ _ _ _ E1) in V3;
    rewrite V3; [| now rewrite (bind_Fault _ _ _ E3)].
  rewrite (bind_Ok _ _ _ _ _ E3).
  set (s3 := set_mem _ s2) in *.
  exists (set_list_head bp s3). split; [reflexivity |]. unfold pushed_at_head.
  assert (L : forall a, load W a (set_list_head bp s3) =
            if decide (a = bp) then Some 0
            else if decide (a = list_head s) then Some bp
            else if decide (a = wrap W (bp + W)) then Some (list_head s)
            else load W a s).
  { intros a. rewrite load_set_list_head, (load_after_PUT _ _ _ _ _ a E3).
    destruct (decide (a = bp)); [reflexivity |].
    rewrite (load_after_PUT _ _ _ _ _ a E2).
    destruct (decide (a = list_head s)); [reflexivity |].
    now rewrite (load_after_PUT _ _ _ _ _ a E1). }
  split; [| split; [| split; [| split]]].
  - rewrite L. repeat (destruct (decide _); try congruence).
  - rewrite L. repeat (destruct (decide _); try congruence).
  - rewrite L. repeat (destruct (decide _); try congruence).
  - reflexivity.
  - intros a H1 H2 H3. rewrite L. repeat (destruct (decide _); try congruence).
Qed.

Lemma insert_list_bad_head W s bp :
  valid_addr W (list_head s) s = false -> insert_list W bp s = Fault.
Proof.
  intros V. rewrite insert_list_eq.
  destruct (PUT_cases W (wrap W (bp + W)) (list_head s) s) as [[V1 E1] | [V1 E1]];
    [| now rewrite (bind_Fault _ _ _ E1)].
  rewrite (bind_Ok _ _ _ _ _ E1). apply bind_Fault, PUT_invalid.
  now rewrite (valid_after_PUT _ _ _ _ _ _ E1).
Qed.

(** C6 (as amended).  [insert_list bp] stores, in this order, the old head
    in [bp]'s next link, [bp] in the old head's prev link and null in [bp]'s
    prev link, then makes [bp] the head; for a [bp] that is not the head
    already, the list afterwards starts with [bp] linked in front of the
    old head.  The store through the old head is never suppressed: when the
    old head is not a word of the heap, as is the null pointer of an empty
    list, the call faults. *)
Theorem insert_list_pushes_at_head W s bp :
  W = 4 \/ W = 8 ->
  insert_list W bp s =
    (PUT W (wrap W (bp + W)) (list_head s);;
     PUT W (list_head s) bp;;
     PUT W bp 0;;
     put_list_head bp) s /\
  (list_head s <> bp -> list_head s <> wrap W (bp + W) ->
   if valid_addr W (wrap W (bp + W)) s && valid_addr W (list_head s) s
      && valid_addr W bp s
   then exists s', insert_list W bp s = Ok tt s' /\ pushed_at_head W s bp s'
   else insert_list W bp s = Fault) /\
  (list_head s = 0 -> 0 < mem_lo s -> insert_list W bp s = Fault).
Proof.
  intros HW. split; [apply insert_list_eq | split].
  - now apply insert_list_post.
  - intros H0 Hlo. apply insert_list_bad_head. rewrite H0. now apply valid_addr_0.
Qed.

Lemma insert_list_pushes_at_head_witness :
  (8 = 4 \/ 8 = 8) /\
  (list_head (after 8 [Malloc 32]) <> 4160 /\
   list_head (after 8 [Malloc 32]) <> wrap 8 (4160 + 8)) /\
  exists s', insert_list 8 4160 (after 8 [Malloc 32]) = Ok tt s' /\
             pushed_at_head 8 (after 8 [Malloc 32]) 4160 s'.
Proof.
  assert (H1 : list_head (after 8 [Malloc 32]) <> 4160) by by_eval.
  assert (H2 : list_head (after 8 [Malloc 32]) <> wrap 8 (4160 + 8)) by by_eval.
  split; [right; reflexivity | split; [split; assumption |]].
  destruct (insert_list_pushes_at_head 8 (after 8 [Malloc 32]) 4160
              (or_intror eq_refl)) as (_ & Main & _).
  specialize (Main H1 H2).
  replace (valid_addr 8 (wrap 8 (4160 + 8)) (after 8 [Malloc 32])
           && valid_addr 8 (list_head (after 8 [Malloc 32])) (after 8 [Malloc 32])
           && valid_addr 8 4160 (after 8 [Malloc 32])) with true in Main
    by (vm_compute; reflexivity).
  exact Main.
Defined.

(** C6, the claim as written fails.  With an empty list (null head) the
    store to the head's prev link is not suppressed: [insert_list] stores
    through the null pointer and faults. *)
Lemma insert_list_null_head_faults :
  list_head (set_list_head 0 (after 8 [])) = 0 /\
  valid_addr 8 4160 (set_list_head 0 (after 8 [])) = true /\
  valid_addr 8 (wrap 8 (4160 + 8)) (set_list_head 0 (after 8 [])) = true /\
  insert_list 8 4160 (set_list_head 0 (after 8 [])) = Fault.
Proof. eval_all. Qed.

Lemma remove_list_post W s bp prev next :
  load W bp s = Some prev ->
  load W (wrap W (bp + W)) s = Some next ->
  prev = 0 \/ bp <> wrap W (prev + W) ->
  if ((prev =? 0) || valid_addr W (wrap W (prev + W)) s) && valid_addr W next s
  then exists s', remove_list W bp s = Ok tt s' /\ spliced_out W s prev next s'
  else remove_list W bp s = Fault.
Proof.
  intros Hp Hn Hal. rewrite (remove_list_eq W _ _ _ _ Hp Hn). unfold spliced_out.
  destruct (prev =? 0) eqn:E0; cbn [orb andb].
  - apply Z.eqb_eq in E0. subst prev. rewrite bind_unfold. unfold put_list_head.
    set (s1 := set_list_head next s).
    destruct (PUT_cases W next 0 s1) as [[V E] | [V E]];
      change (valid_addr W next s1) with (valid_addr W next s) in V; rewrite V;
      [| exact E].
    eexists. split; [exact E |].
    split; [| split; [| split]].
    + rewrite (load_after_PUT _ _ _ _ _ next E). now destruct (decide (next = next)).
    + reflexivity.
    + intros H. exfalso. now apply H.
    + intros a _ Ha. rewrite (load_after_PUT _ _ _ _ _ a E).
      destruct (decide (a = next)); [contradiction | reflexivity].
  - apply Z.eqb_neq in E0. destruct Hal as [Hal | Hal]; [contradiction |].
    destruct (decide (bp = wrap W (prev + W))) as [Heq | _]; [contradiction |].
    destruct (PUT_cases W (wrap W (prev + W)) next s) as [[V1 E1] | [V1 E1]];
      rewrite V1; cbn [andb]; [| now rewrite (bind_Fault _ _ _ E1)].
    rewrite (bind_Ok _ _ _ _ _ E1). set (s1 := set_mem _ s) in *.
    destruct (PUT_cases W next prev s1) as [[V2 E2] | [V2 E2]];
      rewrite (valid_after_PUT _ _ _ _ _ _ E1) in V2; rewrite V2; [| exact E2].
    eexists. split; [exact E2 |].
    split; [| split; [| split]].
    + rewrite (load_after_PUT _ _ _ _ _ next E2). now destruct (decide (next = next)).
    + reflexivity.
    + intros _ Hne. rewrite (load_after_PUT _ _ _ _ _ _ E2).
      destruct (decide (wrap W (prev + W) = next)); [congruence |].
      rewrite (load_after_PUT _ _ _ _ _ _ E1).
      now destruct (decide (wrap W (prev + W) = wrap W (prev + W))).
    + intros a Ha1 Ha2. rewrite (load_after_PUT _ _ _ _ _ a E2).
      destruct (decide (a = next)); [contradiction |].
      rewrite (load_after_PUT _ _ _ _ _ a E1).
      destruct (decide (a = wrap W (prev + W))); [contradiction | reflexivity].
Qed.

Lemma remove_list_bad_next W s bp prev next :
  load W bp s = Some prev ->
  load W (wrap W (bp + W)) s = Some next ->
  valid_addr W next s = false -> remove_list W bp s = Fault.
Proof.
  intros Hp Hn V. rewrite (remove_list_eq W _ _ _ _ Hp Hn).
  destruct (prev =? 0).
  - rewrite bind_unfold. unfold put_list_head. now apply PUT_invalid.
  - destruct (PUT_cases W (wrap W (prev + W)) next s) as [[V1 E1] | [V1 E1]];
      [| now rewrite (bind_Fault _ _ _ E1)].
    rewrite (bind_Ok _ _ _ _ _ E1). apply PUT_invalid.
    now rewrite (valid_after_PUT _ _ _ _ _ _ E1).
Qed.

(** C5 (as amended).  [remove_list bp], for a node with links [prev] and
    [next]: when [prev] is not null it stores [next] in [prev]'s next link,
    otherwise it makes [next] the head; then, in every case, it stores
    [bp]'s prev link in the prev link of [next].  That last store is not
    guarded: when [next] is not a word of the heap, as is the null pointer
    at the end of a list, the call faults. *)
Theorem remove_list_splices W s bp prev next :
  load W bp s = Some prev ->
  load W (wrap W (bp + W)) s = Some next ->
  remove_list W bp s =
    (if prev =? 0
     then put_list_head next;; PUT W next 0
     else PUT W (wrap W (prev + W)) next;;
          PUT W next (if decide (bp = wrap W (prev + W)) then next else prev)) s /\
  (prev = 0 \/ bp <> wrap W (prev + W) ->
   if ((prev =? 0) || valid_addr W (wrap W (prev + W)) s) && valid_addr W next s
   then exists s', remove_list W bp s = Ok tt s' /\ spliced_out W s prev next s'
   else remove_list W bp s = Fault) /\
  (next = 0 -> 0 < mem_lo s -> remove_list W bp s = Fault).
Proof.
  intros Hp Hn. split; [now apply remove_list_eq | split].
  - now apply remove_list_post.
  - intros -> Hlo. apply (remove_list_bad_next W s bp prev 0 Hp Hn).
    now apply valid_addr_0.
Qed.

Lemma remove_list_splices_witness :
  (load 8 4160 heap_two_freed = Some 4256 /\
   load 8 (wrap 8 (4160 + 8)) heap_two_freed = Some 4352) /\
  (4256 = 0 \/ 4160 <> wrap 8 (4256 + 8)) /\
  exists s', remove_list 8 4160 heap_two_freed = Ok tt s' /\
             spliced_out 8 heap_two_freed 4256 4352 s'.
Proof.
  assert (Hp : load 8 4160 heap_two_freed = Some 4256) by by_eval.
  assert (Hn : load 8 (wrap 8 (4160 + 8)) heap_two_freed = Some 4352) by by_eval.
  assert (Hal : 4256 = 0 \/ 4160 <> wrap 8 (4256 + 8)) by (right; by_eval).
  split; [split; assumption | split; [exact Hal |]].
  destruct (remove_list_splices 8 heap_two_freed 4160 4256 4352 Hp Hn)
    as (_ & Main & _).
  specialize (Main Hal).
  replace (((4256 =? 0) || valid_addr 8 (wrap 8 (4256 + 8)) heap_two_freed)
           && valid_addr 8 4352 heap_two_freed) with true in Main
    by (vm_compute; reflexivity).
  exact Main.
Defined.

(** C5, the claim as written fails.  After [mm_init] the free list is the
    first chunk followed by the node [mm_init] placed on the epilogue word;
    that last node has a null next link, and removing it stores through the
    null pointer: the call faults instead of skipping the store. *)
Lemma remove_list_null_next_faults :
  returned (list_walk 8 (heap_fuel 8 (after 8 [])) (list_head (after 8 [])) (after 8 []))
    = Some [4160; 4120] /\
  load 8 (wrap 8 (4120 + 8)) (after 8 []) = Some 0 /\
  valid_addr 8 0 (after 8 []) = false /\
  remove_list 8 4120 (after 8 []) = Fault.
Proof. eval_all. Qed.

(** ** [mm_realloc]: the leading tests on the size *)

(** C3 (as amended).  For a non-null block pointer and a size whose [int]
    value is positive, when the block's total size is at least the size
    plus two words, [mm_realloc] returns the pointer itself and leaves the
    heap as it was. *)
Theorem mm_realloc_enough_room W s ptr size h :
  ptr <> 0 -> 0 <= size -> 0 < to_int size ->
  load W (HDRP W ptr) s = Some h ->
  wrap W (size + 2 * W) <= size_of W h ->
  mm_realloc W ptr size s = Ok ptr s.
Proof.
  intros Hptr Hsz Hint Hh Hfit. unfold mm_realloc.
  destruct (to_int size =? 0) eqn:E1; [apply Z.eqb_eq in E1; lia |].
  destruct (to_int size <? 0) eqn:E2; [apply Z.ltb_lt in E2; lia |].
  destruct (ptr =? 0) eqn:E3; [apply Z.eqb_eq in E3; contradiction |].
  assert (Hpos : 0 < size).
  { destruct (Z.eq_dec size 0) as [-> | ]; [discriminate E1 | lia]. }
  destruct (size >? 0) eqn:E4; [| rewrite Z.gtb_ltb in E4; apply Z.ltb_ge in E4; lia].
  rewrite (bind_GET_SIZE W _ _ _ _ Hh).
  destruct (wrap W (size + 2 * W) <=? size_of W h) eqn:E5; [reflexivity |].
  apply Z.leb_gt in E5. lia.
Qed.

Lemma mm_realloc_enough_room_witness :
  (4160 <> 0 /\ 0 <= 20 /\ 0 < to_int 20 /\
   load 8 (HDRP 8 4160) (after 8 [Malloc 32]) = Some 49 /\
   wrap 8 (20 + 2 * 8) <= size_of 8 49) /\
  mm_realloc 8 4160 20 (after 8 [Malloc 32]) = Ok 4160 (after 8 [Malloc 32]).
Proof.
  split.
  - eval_all.
  - apply mm_realloc_enough_room with (h := 49).
    + discriminate.
    + discriminate.
    + reflexivity.
    + vm_compute; reflexivity.
    + vm_compute; discriminate.
Defined.

(** C3, the claim as written fails for the size 0: the block of 48 bytes at
    4160 is large enough for 0 bytes plus two words, yet [mm_realloc] frees
    it and returns null. *)
Lemma mm_realloc_size_zero_not_kept :
  load 8 (HDRP 8 4160) (after 8 [Malloc 32]) = Some 49 /\
  0 + 2 * 8 <= size_of 8 49 /\
  returned (mm_realloc 8 4160 0 (after 8 [Malloc 32])) = Some 0 /\
  returned (mm_realloc 8 4160 0 (after 8 [Malloc 32])) <> Some 4160.
Proof. eval_all. Qed.

(** C4.  The two leading tests of [mm_realloc] look at [(int)size], the low
    32 bits of the size.  On a 32-bit target the first is the test
    [size == 0]; on a 64-bit target a size of 2^32 bytes also passes it, so
    the block is freed and null returned for a non-zero size, and a size of
    2^31 bytes, positive as a 64-bit signed number, is refused as negative. *)
Theorem mm_realloc_int_cast :
  (forall W ptr size s,
      to_int size = 0 -> mm_realloc W ptr size s = (mm_free W ptr;; ret 0) s) /\
  (forall W ptr size s, to_int size < 0 -> mm_realloc W ptr size s = Ok 0 s) /\
  (forall size, 0 <= size < 2 ^ 32 ->
      (to_int size = 0 <-> size = 0) /\ (to_int size < 0 <-> 2 ^ 31 <= size)) /\
  (2 ^ 32 <> 0 /\ to_int (2 ^ 32) = 0 /\
   load 8 (HDRP 8 4160) (after 8 [Malloc 32]) = Some 49 /\
   returned (mm_realloc 8 4160 (2 ^ 32) (after 8 [Malloc 32])) = Some 0 /\
   load 8 (HDRP 8 4160)
     (state_of (mm_realloc 8 4160 (2 ^ 32) (after 8 [Malloc 32])) heap0) = Some 4096) /\
  (0 < 2 ^ 31 < 2 ^ 63 /\ to_int (2 ^ 31) < 0 /\
   mm_realloc 8 4160 (2 ^ 31) (after 8 [Malloc 32]) = Ok 0 (after 8 [Malloc 32])).
Proof.
  split; [| split; [| split; [| split]]].
  - intros W ptr size s H. unfold mm_realloc. now rewrite H.
  - intros W ptr size s H. unfold mm_realloc.
    destruct (to_int size =? 0) eqn:E1; [apply Z.eqb_eq in E1; lia |].
    destruct (to_int size <? 0) eqn:E2; [reflexivity | apply Z.ltb_ge in E2; lia].
  - intros size H. unfold to_int. rewrite Z.mod_small by exact H.
    destruct (size <? 2 ^ 31) eqn:E;
      [apply Z.ltb_lt in E | apply Z.ltb_ge in E]; lia.
  - eval_all.
  - eval_all.
Qed.

(** ** [extend_heap] *)

Lemma extend_bytes_is_size W words :
  W = 4 \/ W = 8 -> is_size W (extend_bytes W words).
Proof.
  intros HW. unfold extend_bytes, is_size.
  destruct (words mod 2 =? 0) eqn:E; cbn [negb];
    [apply Z.eqb_eq in E | apply Z.eqb_neq in E]; w_lia HW.
Qed.

(** The calls the allocator makes never ask for zero bytes: [mm_init]
    extends by one chunk, [mm_malloc] by the larger of the adjusted size
    and one chunk, and neither count is rounded. *)
Lemma extend_bytes_of_calls W size :
  W = 4 \/ W = 8 ->
  extend_bytes W (CHUNKSIZE / W) = CHUNKSIZE /\
  extend_bytes W (MAX (adjust_size W size) CHUNKSIZE / W)
    = MAX (adjust_size W size) CHUNKSIZE /\
  MAX (adjust_size W size) CHUNKSIZE <> 0.
Proof.
  intros HW.
  assert (Ha : is_size W (adjust_size W size)).
  { unfold adjust_size, is_size. destruct (size <=? DSIZE W); w_lia HW. }
  destruct Ha as [Hr Hm]. change CHUNKSIZE with 4096.
  split; [destruct HW; subst; reflexivity |].
  unfold MAX. destruct (adjust_size W size >? 4096) eqn:E.
  - rewrite Z.gtb_ltb in E. apply Z.ltb_lt in E.
    set (a := adjust_size W size) in *. clearbody a. unfold extend_bytes.
    assert (Hev : (a / W) mod 2 = 0) by w_lia HW.
    rewrite Hev. cbn [Z.eqb negb]. split; w_lia HW.
  - split; [destruct HW; subst; reflexivity | discriminate].
Qed.

(** C8 (as amended).  On a successful call the provider returns the old heap
    top [bp].  [extend_heap] writes a free header in the word below [bp],
    that is the last word of the old heap, and a free footer covering the
    requested bytes, writes a size-0 allocated epilogue header in the last
    word of the grown heap, and returns what [coalesce] returns for the
    block.  (The last word of the heap is thus the epilogue header whenever
    [extend_heap] ran before.) *)
Theorem extend_heap_lays_out_block W s words :
  W = 4 \/ W = 8 ->
  extend_bytes W words <> 0 ->
  mem_brk s + extend_bytes W words <= mem_max s ->
  0 <= mem_lo s <= mem_brk s - W ->
  mem_brk s mod W = 0 ->
  mem_brk s + extend_bytes W words < 2 ^ wbits W ->
  exists s',
    mem_sbrk W (extend_bytes W words) s
      = Ok (mem_brk s) (set_brk (mem_brk s + extend_bytes W words) s) /\
    HDRP W (mem_brk s) = mem_brk s - W /\
    block_laid_out W s (mem_brk s) (extend_bytes W words) s' /\
    extend_heap W words s = coalesce W (mem_brk s) s'.
Proof.
  intros HW Hnz Hmax Hlo Hal Hfit.
  pose proof (extend_bytes_is_size W words HW) as Hsz.
  set (size := extend_bytes W words) in *. set (bp := mem_brk s) in *.
  assert (HD : DSIZE W <= size).
  { destruct Hsz as [Hr Hm]. w_lia HW. }
  assert (Hh : HDRP W bp = bp - W).
  { unfold HDRP. destruct Hsz as [Hr Hm]. w_lia HW. }
  assert (Hf : wrap W (wrap W (bp + size) - DSIZE W) = bp + size - DSIZE W).
  { destruct Hsz as [Hr Hm]. w_lia HW. }
  assert (Hn : wrap W (bp + size) = bp + size).
  { destruct Hsz as [Hr Hm]. w_lia HW. }
  assert (He : HDRP W (bp + size) = bp + size - W).
  { unfold HDRP. destruct Hsz as [Hr Hm]. w_lia HW. }
  assert (Hm1 : (bp =? wrap W (-1)) = false).
  { apply Z.eqb_neq. destruct Hsz as [Hr Hm]. w_lia HW. }
  assert (Hsb : mem_sbrk W size s = Ok bp (set_brk (bp + size) s)).
  { unfold mem_sbrk. fold bp. destruct (bp + size <=? mem_max s) eqn:E; [reflexivity |].
    apply Z.leb_gt in E. lia. }
  set (s1 := set_brk (bp + size) s) in *.
  assert (V : forall a, mem_lo s <= a -> a + W <= bp + size -> a mod W = 0 ->
                        valid_addr W a s1 = true).
  { intros a H1 H2 H3. unfold valid_addr. cbn.
    apply andb_true_intro; split; [apply andb_true_intro; split |].
    - now apply Z.leb_le.
    - now apply Z.leb_le.
    - now apply Z.eqb_eq. }
  assert (V1 : valid_addr W (bp - W) s1 = true).
  { apply V; destruct Hsz as [Hr Hm]; w_lia HW. }
  assert (V2 : valid_addr W (bp + size - DSIZE W) s1 = true).
  { apply V; destruct Hsz as [Hr Hm]; w_lia HW. }
  assert (V3 : valid_addr W (bp + size - W) s1 = true).
  { apply V; destruct Hsz as [Hr Hm]; w_lia HW. }
  assert (N12 : bp - W <> bp + size - DSIZE W).
  { destruct Hsz as [Hr Hm]. w_lia HW. }
  assert (N13 : bp - W <> bp + size - W).
  { destruct Hsz as [Hr Hm]. w_lia HW. }
  assert (N23 : bp + size - DSIZE W <> bp + size - W).
  { destruct Hsz as [Hr Hm]. w_lia HW. }
  set (s2 := set_mem (<[bp - W := PACK size 0]> (mem s1)) s1).
  set (s3 := set_mem (<[bp + size - DSIZE W := PACK size 0]> (mem s2)) s2).
  set (s4 := set_mem (<[bp + size - W := PACK 0 1]> (mem s3)) s3).
  assert (E2 : PUT W (bp - W) (PACK size 0) s1 = Ok tt s2) by now apply PUT_valid.
  assert (E3 : PUT W (bp + size - DSIZE W) (PACK size 0) s2 = Ok tt s3).
  { apply PUT_valid. now rewrite (valid_after_PUT _ _ _ _ _ _ E2). }
  assert (E4 : PUT W (bp + size - W) (PACK 0 1) s3 = Ok tt s4).
  { apply PUT_valid.
    now rewrite (valid_after_PUT _ _ _ _ _ _ E3), (valid_after_PUT _ _ _ _ _ _ E2). }
  assert (L2 : load W (bp - W) s2 = Some (PACK size 0)).
  { rewrite (load_after_PUT _ _ _ _ _ _ E2). now destruct (decide (bp - W = bp - W)). }
  assert (L3 : load W (bp - W) s3 = Some (PACK size 0)).
  { rewrite (load_after_PUT _ _ _ _ _ _ E3).
    destruct (decide (bp - W = bp + size - DSIZE W)); [contradiction | exact L2]. }
  exists s4. split; [exact Hsb |]. split; [exact Hh |]. split.
  - unfold block_laid_out. split; [reflexivity |].
    split.
    { rewrite (load_after_PUT _ _ _ _ _ _ E4).
      destruct (decide (bp - W = bp + size - W)); [contradiction | exact L3]. }
    split.
    { rewrite (load_after_PUT _ _ _ _ _ _ E4).
      destruct (decide (bp + size - DSIZE W = bp + size - W)); [contradiction |].
      rewrite (load_after_PUT _ _ _ _ _ _ E3).
      now destruct (decide (bp + size - DSIZE W = bp + size - DSIZE W)). }
    split.
    { change (mem_brk s4) with (bp + size).
      rewrite (load_after_PUT _ _ _ _ _ _ E4).
      now destruct (decide (bp + size - W = bp + size - W)). }
    split; [| repeat split].
    intros a H1 H2 H3. cbn.
    rewrite lookup_insert_ne by congruence.
    rewrite lookup_insert_ne by congruence.
    now rewrite lookup_insert_ne by congruence.
  - unfold extend_heap. fold size. cbv zeta.
    rewrite (bind_Ok _ _ _ _ _ Hsb), Hm1, Hh.
    rewrite (bind_Ok _ _ _ _ _ E2).
    assert (Hp0 : size_of W (PACK size 0) = size).
    { rewrite PACK_0. now apply size_of_is_size. }
    rewrite (bind_FTRP W bp _ s2 (PACK size 0)) by (rewrite Hh; exact L2).
    rewrite Hp0, Hf, (bind_Ok _ _ _ _ _ E3).
    rewrite (bind_NEXT_BLKP W bp _ s3 (PACK size 0)) by (rewrite Hh; exact L3).
    rewrite Hp0, Hn, He, (bind_Ok _ _ _ _ _ E4). reflexivity.
Qed.

Lemma extend_heap_lays_out_block_witness :
  (extend_bytes 8 512 <> 0 /\
   mem_brk (after 8 []) + extend_bytes 8 512 <= mem_max (after 8 []) /\
   0 <= mem_lo (after 8 []) <= mem_brk (after 8 []) - 8 /\
   mem_brk (after 8 []) mod 8 = 0 /\
   mem_brk (after 8 []) + extend_bytes 8 512 < 2 ^ wbits 8) /\
  exists s',
    mem_sbrk 8 (extend_bytes 8 512) (after 8 [])
      = Ok (mem_brk (after 8 []))
           (set_brk (mem_brk (after 8 []) + extend_bytes 8 512) (after 8 [])) /\
    HDRP 8 (mem_brk (after 8 [])) = mem_brk (after 8 []) - 8 /\
    block_laid_out 8 (after 8 []) (mem_brk (after 8 [])) (extend_bytes 8 512) s' /\
    extend_heap 8 512 (after 8 []) = coalesce 8 (mem_brk (after 8 [])) s'.
Proof.
  split.
  - eval_all.
  - apply extend_heap_lays_out_block.
    + right; reflexivity.
    + vm_compute; discriminate.
    + vm_compute; discriminate.
    + split; vm_compute; discriminate.
    + vm_compute; reflexivity.
    + vm_compute; reflexivity.
Defined.

(** C8, the claim as written fails for the first call, the one [mm_init]
    makes.  [mm_init] asks the provider for eight words and writes its
    epilogue header in the fourth (address 4120 here).  The provider then
    returns 4160 to [extend_heap], whose block header goes to 4152, a word
    that held no epilogue header; the epilogue word at 4120 is overwritten
    later, by the prev link that [insert_list] stores there. *)
Lemma first_extend_heap_misses_epilogue :
  returned (init_layout 8 heap0) = Some true /\
  wrap 8 (heap_listp (state_of (init_layout 8 heap0) heap0) + 3 * 8) = 4120 /\
  load 8 4120 (state_of (init_layout 8 heap0) heap0) = Some (PACK 0 1) /\
  returned (mem_sbrk 8 (extend_bytes 8 (CHUNKSIZE / 8)) (state_of (init_layout 8 heap0) heap0))
    = Some 4160 /\
  HDRP 8 4160 = 4152 /\ 4152 <> 4120 /\ 4160 <> 4120 /\
  load 8 4152 (state_of (init_layout 8 heap0) heap0) = Some 0 /\
  load 8 4152 (after 8 []) = Some (PACK 4096 0) /\
  load 8 4120 (after 8 []) = Some 4160.
Proof. eval_all. Qed.

(** ** [coalesce] *)

(** Payload pointers are multiples of the double word.  A link that is one,
    and is not the address of the footer in front of [bp], stays clear of
    the boundary tags around an aligned [bp]. *)
Lemma aligned_avoids_tags W bp x :
  W = 4 \/ W = 8 ->
  bp mod DSIZE W = 0 ->
  0 <= x < 2 ^ wbits W -> x mod DSIZE W = 0 ->
  x <> wrap W (bp - DSIZE W) ->
  avoids_tags W bp x.
Proof.
  intros HW Hbp Hx Hxa Hne. unfold avoids_tags, HDRP.
  repeat split; w_lia HW.
Qed.

(** C2.  With [size], [next] and [prev] read from the boundary tags around
    [bp], and the two neighbours' allocation read as the code reads it (the
    block before [bp] also counts as allocated when [PREV_BLKP bp] is [bp]
    itself), [coalesce bp] does one of four things: insert [bp] unchanged;
    absorb [next]; be absorbed by [prev]; or have [prev] absorb both.  The
    new size is the sum of the sizes involved, the header is rewritten at
    the surviving block and the footer [DSIZE] below its new end, and the
    surviving block is inserted in the free list and returned. *)
Theorem coalesce_four_cases W s bp h hn fprev hp tp :
  W = 4 \/ W = 8 ->
  load W (HDRP W bp) s = Some h ->
  load W (HDRP W (wrap W (bp + size_of W h))) s = Some hn ->
  load W (wrap W (bp - DSIZE W)) s = Some fprev ->
  load W (HDRP W (wrap W (bp - size_of W fprev))) s = Some hp ->
  load W (wrap W (wrap W (wrap W (bp - size_of W fprev) + size_of W hp) - DSIZE W)) s
    = Some tp ->
  let size := size_of W h in
  let next := wrap W (bp + size) in
  let prev := wrap W (bp - size_of W fprev) in
  let prev_alloc := negb (alloc_of tp =? 0) || (prev =? bp) in
  let next_alloc := negb (alloc_of hn =? 0) in
  (prev_alloc = false -> next_alloc = false -> links_avoid_tags W s bp prev next) ->
  coalesce W bp s =
    if prev_alloc then
      if next_alloc then (insert_list W bp;; ret bp) s
      else
        let size' := wrap W (size + size_of W hn) in
        (remove_list W next;;
         PUT W (HDRP W bp) (PACK size' 0);;
         PUT W (wrap W (wrap W (bp + size') - DSIZE W)) (PACK size' 0);;
         insert_list W bp;; ret bp) s
    else
      if next_alloc then
        let size' := wrap W (size + size_of W hp) in
        (remove_list W prev;;
         PUT W (HDRP W prev) (PACK size' 0);;
         PUT W (wrap W (wrap W (prev + size') - DSIZE W)) (PACK size' 0);;
         insert_list W prev;; ret prev) s
      else
        let size' := wrap W (size + wrap W (size_of W hp + size_of W hn)) in
        (remove_list W prev;;
         remove_list W next;;
         PUT W (HDRP W prev) (PACK size' 0);;
         PUT W (wrap W (wrap W (prev + size') - DSIZE W)) (PACK size' 0);;
         insert_list W prev;; ret prev) s.
Proof.
  intros HW Hh Hhn Hfp Hhp Htp size next prev prev_alloc next_alloc Hsep.
  assert (Tail : forall b n (k : Z -> M Z) s1, is_size W n ->
    bind (PUT W (HDRP W b) (PACK n 0);;
          do f <- FTRP W b; PUT W f (PACK n 0);; ret b) k s1 =
    (PUT W (HDRP W b) (PACK n 0);;
     PUT W (wrap W (wrap W (b + n) - DSIZE W)) (PACK n 0);; k b) s1).
  { intros b n k s1 Hn. rewrite bind_assoc.
    destruct (PUT_cases W (HDRP W b) (PACK n 0) s1) as [[V E] | [V E]].
    - rewrite !(bind_Ok _ _ _ _ _ E), bind_assoc.
      rewrite (bind_FTRP W b _ _ (PACK n 0)) by now apply load_set_mem_eq.
      rewrite PACK_0, (size_of_is_size W HW _ Hn), bind_assoc.
      set (s2 := set_mem _ s1).
      destruct (PUT W (wrap W (wrap W (b + n) - DSIZE W)) n s2) as [[] s3 | |] eqn:E2.
      + now rewrite !(bind_Ok _ _ _ _ _ E2).
      + now rewrite !(bind_Fault _ _ _ E2).
      + now rewrite !(bind_OutOfFuel _ _ _ E2).
    - now rewrite !(bind_Fault _ _ _ E). }
  pose proof (is_size_size_of W HW h) as Sh.
  pose proof (is_size_size_of W HW hn) as Shn.
  pose proof (is_size_size_of W HW hp) as Shp.
  unfold coalesce.
  rewrite (bind_NEXT_BLKP W _ _ _ _ Hh), (bind_GET_ALLOC W _ _ _ _ Hhn).
  rewrite (bind_PREV_BLKP W _ _ _ _ Hfp), (bind_FTRP W _ _ _ _ Hhp).
  rewrite (bind_GET_ALLOC W _ _ _ _ Htp), (bind_PREV_BLKP W _ _ _ _ Hfp).
  cbv zeta. rewrite (bind_GET_SIZE W _ _ _ _ Hh).
  fold size. fold next. fold prev. fold prev_alloc. fold next_alloc.
  destruct prev_alloc eqn:Ep; destruct next_alloc eqn:En; cbn [andb negb].
  - reflexivity.
  - rewrite bind_assoc, (bind_NEXT_BLKP W _ _ _ _ Hh).
    rewrite bind_assoc, (bind_GET_SIZE W _ _ _ _ Hhn).
    rewrite bind_assoc, (bind_NEXT_BLKP W _ _ _ _ Hh). fold size. fold next.
    rewrite bind_assoc.
    destruct (remove_list W next s) as [[] s1 | |] eqn:E1;
      [| now rewrite !(bind_Fault _ _ _ E1) | now rewrite !(bind_OutOfFuel _ _ _ E1)].
    rewrite !(bind_Ok _ _ _ _ _ E1).
    apply Tail. now apply is_size_wrap_add.
  - rewrite bind_assoc, (bind_PREV_BLKP W _ _ _ _ Hfp). fold prev.
    rewrite bind_assoc, (bind_GET_SIZE W _ _ _ _ Hhp).
    rewrite bind_assoc, (bind_PREV_BLKP W _ _ _ _ Hfp). fold prev.
    rewrite bind_assoc.
    destruct (remove_list W prev s) as [[] s1 | |] eqn:E1;
      [| now rewrite !(bind_Fault _ _ _ E1) | now rewrite !(bind_OutOfFuel _ _ _ E1)].
    rewrite !(bind_Ok _ _ _ _ _ E1).
    apply Tail. now apply is_size_wrap_add.
  - specialize (Hsep eq_refl eq_refl).
    rewrite bind_assoc, (bind_PREV_BLKP W _ _ _ _ Hfp). fold prev.
    rewrite bind_assoc, (bind_GET_SIZE W _ _ _ _ Hhp).
    rewrite bind_assoc, (bind_NEXT_BLKP W _ _ _ _ Hh). fold size. fold next.
    rewrite bind_assoc, (bind_GET_SIZE W _ _ _ _ Hhn).
    rewrite bind_assoc, (bind_PREV_BLKP W _ _ _ _ Hfp). fold prev.
    rewrite bind_assoc.
    destruct (remove_list W prev s) as [[] s1 | |] eqn:E1;
      [| now rewrite !(bind_Fault _ _ _ E1) | now rewrite !(bind_OutOfFuel _ _ _ E1)].
    rewrite !(bind_Ok _ _ _ _ _ E1).
    destruct (remove_list_Ok_links W _ _ _ E1) as (pp & pn & Hpp & Hpn).
    destruct (remove_list_frame W _ _ _ _ _ Hpp Hpn E1) as (Vs1 & Fr1 & Val1).
    assert (App : avoids_tags W bp pp) by (apply Hsep; auto).
    assert (Apn : avoids_tags W bp pn) by (apply Hsep; auto).
    assert (Hh1 : load W (HDRP W bp) s1 = Some h).
    { destruct App as (_ & A & _ & _), Apn as (B & _ & _ & _).
      rewrite Fr1; [exact Hh | congruence | congruence]. }
    assert (Hfp1 : load W (wrap W (bp - DSIZE W)) s1 = Some fprev).
    { destruct App as (_ & _ & _ & A), Apn as (_ & _ & B & _).
      rewrite Fr1; [exact Hfp | congruence | congruence]. }
    rewrite bind_assoc, (bind_NEXT_BLKP W _ _ _ _ Hh1). fold size. fold next.
    rewrite bind_assoc.
    destruct (remove_list W next s1) as [[] s2 | |] eqn:E2;
      [| now rewrite !(bind_Fault _ _ _ E2) | now rewrite !(bind_OutOfFuel _ _ _ E2)].
    rewrite !(bind_Ok _ _ _ _ _ E2).
    destruct (remove_list_Ok_links W _ _ _ E2) as (np & nn & Hnp & Hnn).
    destruct (remove_list_frame W _ _ _ _ _ Hnp Hnn E2) as (Vs2 & Fr2 & Val2).
    assert (Anp : avoids_tags W bp np).
    { destruct (Val1 _ _ Hnp) as [H | [-> | ->]];
        [apply Hsep; auto | exact Apn | exact App]. }
    assert (Ann : avoids_tags W bp nn).
    { destruct (Val1 _ _ Hnn) as [H | [-> | ->]];
        [apply Hsep; auto | exact Apn | exact App]. }
    assert (Hfp2 : load W (wrap W (bp - DSIZE W)) s2 = Some fprev).
    { destruct Anp as (_ & _ & _ & A), Ann as (_ & _ & B & _).
      rewrite Fr2; [exact Hfp1 | congruence | congruence]. }
    rewrite bind_assoc, (bind_PREV_BLKP W _ _ _ _ Hfp2). fold prev.
    apply Tail. apply is_size_wrap_add; [exact HW | exact Sh |].
    now apply is_size_wrap_add.
Qed.

Lemma coalesce_four_cases_witness :
  (load 8 (HDRP 8 4208) heap_both_free = Some 48 /\
   load 8 (HDRP 8 (wrap 8 (4208 + size_of 8 48))) heap_both_free = Some 48 /\
   load 8 (wrap 8 (4208 - DSIZE 8)) heap_both_free = Some 48 /\
   load 8 (HDRP 8 (wrap 8 (4208 - size_of 8 48))) heap_both_free = Some 48 /\
   load 8 (wrap 8 (wrap 8 (wrap 8 (4208 - size_of 8 48) + size_of 8 48) - DSIZE 8))
     heap_both_free = Some 48 /\
   links_avoid_tags 8 heap_both_free 4208 4160 4256) /\
  coalesce 8 4208 heap_both_free =
    (remove_list 8 4160;;
     remove_list 8 4256;;
     PUT 8 4152 (PACK 144 0);;
     PUT 8 4288 (PACK 144 0);;
     insert_list 8 4160;; ret 4160) heap_both_free.
Proof.
  assert (Hsep : links_avoid_tags 8 heap_both_free 4208 4160 4256).
  { intros x Hx. vm_compute in Hx.
    destruct Hx as [Hx | [Hx | [Hx | Hx]]]; inversion Hx; subst x;
      repeat split; intros H; vm_compute in H; discriminate H. }
  split.
  - split; [| split; [| split; [| split; [| split]]]];
      first [exact Hsep | vm_compute; reflexivity].
  - exact (coalesce_four_cases 8 heap_both_free 4208 48 48 48 48 48
             (or_intror eq_refl)
             ltac:(vm_compute; reflexivity) ltac:(vm_compute; reflexivity)
             ltac:(vm_compute; reflexivity) ltac:(vm_compute; reflexivity)
             ltac:(vm_compute; reflexivity) (fun _ _ => Hsep)).
Defined.

(** ** [mm_malloc] and sizes close to the largest [size_t] *)

(** C10.  For a request within two double words of the largest [size_t],
    the sum [size + DSIZE + (DSIZE - 1)] overflows, the adjusted size is
    the wrapped sum rounded down to a double word, which is smaller than
    the request, and there is a heap, reached from [mm_init] by calls of
    the allocator, on which [mm_malloc] returns a non-null pointer to a
    block whose size less header and footer is smaller than the request. *)
Theorem adjust_size_wraps_for_huge_requests W size :
  W = 4 \/ W = 8 ->
  2 ^ wbits W - 2 * DSIZE W < size < 2 ^ wbits W ->
  2 ^ wbits W <= size + DSIZE W + (DSIZE W - 1) /\
  adjust_size W size
    = DSIZE W * (((size + DSIZE W + (DSIZE W - 1)) mod 2 ^ wbits W) / DSIZE W) /\
  adjust_size W size < size /\
  exists cs bp s' h,
    mm_malloc W size (after W cs) = Ok bp s' /\ bp <> 0 /\
    load W (HDRP W bp) s' = Some h /\ size_of W h - DSIZE W < size.
Proof.
  intros HW Hsize.
  assert (Hadj : adjust_size W size
    = DSIZE W * (((size + DSIZE W + (DSIZE W - 1)) mod 2 ^ wbits W) / DSIZE W)).
  { unfold adjust_size.
    destruct (size <=? DSIZE W) eqn:E; [apply Z.leb_le in E; w_lia HW |].
    clear E. w_lia HW. }
  assert (Hcase : adjust_size W size = 0 \/ adjust_size W size = DSIZE W).
  { rewrite Hadj. w_lia HW. }
  split; [w_lia HW |]. split; [exact Hadj |]. split; [rewrite Hadj; w_lia HW |].
  assert (Hm : forall s, mm_malloc W size s = malloc_adjusted W (adjust_size W size) s).
  { intros s. unfold mm_malloc.
    destruct (size =? 0) eqn:E; [apply Z.eqb_eq in E; w_lia HW | reflexivity]. }
  clear Hadj.
  destruct HW as [-> | ->]; w_norm; destruct Hcase as [Hc | Hc].
  - exists [], 4128, (state_of (malloc_adjusted 4 0 (after 4 [])) heap0), 4096.
    rewrite Hm, Hc. conj_split; try by_eval.
    change (size_of 4 4096) with 4096. lia.
  - exists [Malloc 1; Malloc 1; Free 4128], 4128,
      (state_of (malloc_adjusted 4 8 (after 4 [Malloc 1; Malloc 1; Free 4128])) heap0), 17.
    rewrite Hm, Hc. conj_split; try by_eval.
    change (size_of 4 17) with 16. lia.
  - exists [], 4160, (state_of (malloc_adjusted 8 0 (after 8 [])) heap0), 4096.
    rewrite Hm, Hc. conj_split; try by_eval.
    change (size_of 8 4096) with 4096. lia.
  - exists [Malloc 1; Malloc 1; Free 4160], 4160,
      (state_of (malloc_adjusted 8 16 (after 8 [Malloc 1; Malloc 1; Free 4160])) heap0), 33.
    rewrite Hm, Hc. conj_split; try by_eval.
    change (size_of 8 33) with 32. lia.
Qed.

Lemma adjust_size_wraps_for_huge_requests_witness :
  (2 ^ wbits 8 - 2 * DSIZE 8 < 2 ^ 64 - 31 < 2 ^ wbits 8) /\
  (2 ^ wbits 8 <= 2 ^ 64 - 31 + DSIZE 8 + (DSIZE 8 - 1) /\
   adjust_size 8 (2 ^ 64 - 31)
     = DSIZE 8 * (((2 ^ 64 - 31 + DSIZE 8 + (DSIZE 8 - 1)) mod 2 ^ wbits 8) / DSIZE 8) /\
   adjust_size 8 (2 ^ 64 - 31) < 2 ^ 64 - 31 /\
   exists cs bp s' h,
     mm_malloc 8 (2 ^ 64 - 31) (after 8 cs) = Ok bp s' /\ bp <> 0 /\
     load 8 (HDRP 8 bp) s' = Some h /\ size_of 8 h - DSIZE 8 < 2 ^ 64 - 31).
Proof.
  split.
  - split; vm_compute; reflexivity.
  - apply adjust_size_wraps_for_huge_requests.
    + right; reflexivity.
    + split; vm_compute; reflexivity.
Defined.

Lemma adjust_size_covers W size :
  W = 4 \/ W = 8 ->
  0 < size <= 2 ^ wbits W - 2 * DSIZE W ->
  size + DSIZE W <= adjust_size W size /\ 2 * DSIZE W <= adjust_size W size /\
  is_size W (adjust_size W size).
Proof.
  intros HW Hs. unfold adjust_size, is_size.
  destruct (size <=? DSIZE W) eqn:E; [apply Z.leb_le in E | apply Z.leb_gt in E];
    w_lia HW.
Qed.

(** C1.  A request for 0 bytes returns null, and a request of at most
    [2^w - 2 * DSIZE] bytes is adjusted to a block size that holds the
    payload, a header and a footer.  Beyond that the adjustment overflows:
    on a 64-bit target, right after [mm_init], a request for 2^64 - 31
    bytes is adjusted to a block size of 0, and [mm_malloc] returns the
    non-null, aligned pointer 4160; the block there has 4096 bytes in all,
    far fewer than asked for, and is left marked free at the head of the
    free list. *)
Theorem mm_malloc_huge_request_short_block :
  (forall W s, mm_malloc W 0 s = Ok 0 s) /\
  (forall W size, W = 4 \/ W = 8 -> 0 < size <= 2 ^ wbits W - 2 * DSIZE W ->
                  size + DSIZE W <= adjust_size W size) /\
  adjust_size 8 (2 ^ 64 - 31) = 0 /\
  returned (mm_malloc 8 (2 ^ 64 - 31) (after 8 [])) = Some 4160 /\
  4160 <> 0 /\ 4160 mod DSIZE 8 = 0 /\
  load 8 (HDRP 8 4160) (state_of (mm_malloc 8 (2 ^ 64 - 31) (after 8 [])) heap0)
    = Some (PACK 4096 0) /\
  4096 - DSIZE 8 < 2 ^ 64 - 31 /\
  list_head (state_of (mm_malloc 8 (2 ^ 64 - 31) (after 8 [])) heap0) = 4160.
Proof.
  split; [reflexivity | split].
  - intros W size HW Hs. now apply adjust_size_covers.
  - eval_all.
Qed.

(** ** The free list against the implicit walk *)

(** C7.  Right after [mm_init] on a 64-bit target the free list has two
    nodes, the first chunk at 4160 and the node [mm_init] placed on its
    epilogue word at 4120, while the only free block of the heap is the
    chunk.  [check_free_blocks] itself cannot run: it starts its walk at
    [heap_listp], the heap base, whose header would lie below the heap, and
    a walk started at the prologue runs into the link stored in the
    epilogue word.  After a reallocation that copies, the free block at
    4400 is on no list at all. *)
Theorem free_list_disagrees_with_heap_walk :
  returned (list_walk 8 (heap_fuel 8 (after 8 [])) (list_head (after 8 [])) (after 8 []))
    = Some [4160; 4120] /\
  returned (heap_walk 8 (heap_fuel 8 (after 8 [])) 4160 (after 8 [])) = Some [4160] /\
  heap_listp (after 8 []) = 4096 /\
  valid_addr 8 (HDRP 8 (heap_listp (after 8 []))) (after 8 []) = false /\
  check_free_blocks 8 (after 8 []) = Fault /\
  heap_walk 8 (heap_fuel 8 (after 8 [])) (4096 + DSIZE 8) (after 8 []) = Fault /\
  returned (session 8 [Malloc 32; Malloc 32; Realloc 4160 100] heap0)
    = Some [4160; 4208; 4256] /\
  returned (list_walk 8 (heap_fuel 8 (after 8 [Malloc 32; Malloc 32; Realloc 4160 100]))
              (list_head (after 8 [Malloc 32; Malloc 32; Realloc 4160 100]))
              (after 8 [Malloc 32; Malloc 32; Realloc 4160 100]))
    = Some [4160; 4120] /\
  returned (heap_walk 8 (heap_fuel 8 (after 8 [Malloc 32; Malloc 32; Realloc 4160 100]))
              4160 (after 8 [Malloc 32; Malloc 32; Realloc 4160 100]))
    = Some [4160; 4400].
Proof. eval_all. Qed.

(** ** [place] on a block that is already allocated *)

(** C9.  In [mm_realloc 4160 100] the inner [mm_malloc 116] returns the
    block at 4256, of 144 bytes, and leaves the remainder at 4400 at the
    head of the free list.  The call of [place] that follows rewrites
    header and footer with the values they have, then runs [remove_list]
    on the block's stale links: the list head is reset to the node behind
    4400, and the remainder is lost from the free list.  The same happens
    when the placed size is the block's own size. *)
Theorem place_on_allocated_block_changes_free_list :
  returned (mm_realloc 8 4160 100 heap_two_blocks) = Some 4256 /\
  returned (mm_malloc 8 (wrap 8 (100 + 2 * 8)) heap_two_blocks) = Some 4256 /\
  load 8 (HDRP 8 4256) heap_mid_realloc = Some (PACK 144 1) /\
  returned (list_walk 8 (heap_fuel 8 heap_mid_realloc)
              (list_head heap_mid_realloc) heap_mid_realloc) = Some [4400; 4120] /\
  returned (place 8 4256 116 heap_mid_realloc) = Some tt /\
  returned (list_walk 8 (heap_fuel 8 heap_mid_realloc)
              (list_head (state_of (place 8 4256 116 heap_mid_realloc) heap0))
              (state_of (place 8 4256 116 heap_mid_realloc) heap0)) = Some [4120] /\
  place 8 4256 144 heap_mid_realloc = place 8 4256 116 heap_mid_realloc /\
  list_head (state_of (place 8 4256 144 heap_mid_realloc) heap0)
    <> list_head heap_mid_realloc.
Proof. eval_all. Qed.

(** * Further properties of the allocator *)

(** Evaluation of a closed fact, looking at the goal only. *)
Ltac eval_fact :=
  first [ vm_compute; reflexivity
        | vm_compute; let H := fresh in intro H; discriminate H
        | let H := fresh in intro H; vm_compute in H; discriminate H ].

(** ** Boundary tags and the size adjustment *)

(** X1.  Packing a block size with an allocated bit and reading the two
    fields back gives the size and the bit again. *)
Theorem tag_round_trip W n a :
  W = 4 \/ W = 8 -> is_size W n -> a = 0 \/ a = 1 ->
  size_of W (PACK n a) = n /\ alloc_of (PACK n a) = a.
Proof.
  intros HW Hn [-> | ->].
  - rewrite PACK_0. split; [now apply size_of_is_size |].
    destruct Hn as [Hr Hm]. unfold alloc_of.
    change 1 with (Z.ones 1). rewrite Z.land_ones by lia. change (2 ^ 1) with 2.
    w_lia HW.
  - split; [now apply size_of_PACK_1 | now apply (alloc_of_PACK_1 W)].
Qed.

Lemma tag_round_trip_witness :
  (is_size 8 48 /\ (1 = 0 \/ 1 = 1)) /\
  size_of 8 (PACK 48 1) = 48 /\ alloc_of (PACK 48 1) = 1.
Proof.
  assert (H : is_size 8 48) by (split; [split |]; eval_fact).
  split; [split; [exact H | now right] |].
  apply tag_round_trip; [now right | exact H | now right].
Defined.

(** X2.  For a request that does not overflow, the adjusted size is a block
    size of at least the minimum block, holds the request together with a
    header and a footer, and exceeds that by less than a double word. *)
Theorem adjust_size_bounds W size :
  W = 4 \/ W = 8 ->
  0 < size <= 2 ^ wbits W - 2 * DSIZE W ->
  is_size W (adjust_size W size) /\
  2 * DSIZE W <= adjust_size W size /\
  size + DSIZE W <= adjust_size W size < size + 2 * DSIZE W.
Proof.
  intros HW Hs. unfold adjust_size, is_size.
  destruct (size <=? DSIZE W) eqn:E; [apply Z.leb_le in E | apply Z.leb_gt in E];
    w_lia HW.
Qed.

Lemma adjust_size_bounds_witness :
  (0 < 100 <= 2 ^ wbits 8 - 2 * DSIZE 8) /\
  is_size 8 (adjust_size 8 100) /\
  2 * DSIZE 8 <= adjust_size 8 100 /\
  100 + DSIZE 8 <= adjust_size 8 100 < 100 + 2 * DSIZE 8.
Proof.
  assert (H : 0 < 100 <= 2 ^ wbits 8 - 2 * DSIZE 8) by (split; eval_fact).
  split; [exact H |]. apply adjust_size_bounds; [now right | exact H].
Defined.

(** ** [find_fit] *)

Lemma list_walk_state W fuel : forall p s l s',
  list_walk W fuel p s = Ok l s' -> s' = s.
Proof.
  induction fuel as [| n IH]; intros p s l s' E; [discriminate |].
  cbn [list_walk] in E. destruct (p =? 0); [inversion E; reflexivity |].
  unfold GET_NEXTP in E. rewrite bind_unfold in E. unfold GET at 1 in E.
  destruct (load W (wrap W (p + W)) s) as [nx |]; [| discriminate].
  rewrite bind_unfold in E.
  destruct (list_walk W n nx s) as [rest s1 | |] eqn:E1; try discriminate.
  apply IH in E1. inversion E. congruence.
Qed.

Lemma list_walk_step W n p s l :
  list_walk W (S n) p s = Ok l s ->
  (p = 0 /\ l = []) \/
  (p <> 0 /\ exists nx rest,
     load W (wrap W (p + W)) s = Some nx /\ l = p :: rest /\
     list_walk W n nx s = Ok rest s).
Proof.
  intros E. cbn [list_walk] in E. destruct (p =? 0) eqn:E0.
  - left. apply Z.eqb_eq in E0. inversion E. auto.
  - right. apply Z.eqb_neq in E0. split; [exact E0 |].
    unfold GET_NEXTP in E. rewrite bind_unfold in E. unfold GET at 1 in E.
    destruct (load W (wrap W (p + W)) s) as [nx |]; [| discriminate].
    rewrite bind_unfold in E.
    destruct (list_walk W n nx s) as [rest s1 | |] eqn:E1; try discriminate.
    pose proof (list_walk_state W _ _ _ _ _ E1) as ->.
    inversion E. eauto.
Qed.

Lemma find_fit_loop_first_fit W asize fuel : forall p s l,
  list_walk W fuel p s = Ok l s ->
  (forall x, In x l -> exists h, load W (HDRP W x) s = Some h) ->
  exists r, find_fit_loop W fuel asize p s = Ok r s /\ first_fit_of W s asize l r.
Proof.
  induction fuel as [| n IH]; intros p s l E Hh; [discriminate |].
  destruct (list_walk_step W _ _ _ _ E) as [[-> ->] | (Hp & nx & rest & Hn & -> & E1)].
  - exists 0. split; [reflexivity |]. left. split; [reflexivity |].
    intros x h [].
  - destruct (Hh p (or_introl eq_refl)) as [h Hl].
    cbn [find_fit_loop]. destruct (p =? 0) eqn:E0; [apply Z.eqb_eq in E0; contradiction |].
    rewrite (bind_GET_SIZE W _ _ _ _ Hl).
    destruct (asize <=? size_of W h) eqn:Ea.
    + apply Z.leb_le in Ea. exists p. split; [reflexivity |]. right.
      exists [], rest, h. repeat split; auto. intros x h' [].
    + apply Z.leb_gt in Ea. unfold GET_NEXTP. rewrite (bind_GET W _ _ _ _ Hn).
      destruct (IH nx s rest E1) as (r & Er & Hr).
      { intros x Hx. apply Hh. now right. }
      exists r. split; [exact Er |].
      destruct Hr as [[-> Hall] | (l1 & l2 & h2 & -> & Hl2 & Hge & Hlt)].
      * left. split; [reflexivity |]. intros x h' [<- | Hx] Hx'.
        -- rewrite Hl in Hx'. inversion Hx'. subst h'. exact Ea.
        -- eapply Hall; eauto.
      * right. exists (p :: l1), l2, h2. repeat split; auto.
        intros x h' [<- | Hx] Hx'.
        -- rewrite Hl in Hx'. inversion Hx'. subst h'. exact Ea.
        -- eapply Hlt; eauto.
Qed.

(** X3.  [find_fit] is a first-fit search of the free list: it leaves the
    heap as it is and returns the first node of the list whose block has
    at least [asize] bytes, or null when no node has. *)
Theorem find_fit_first_fit W s asize l :
  list_walk W (heap_fuel W s) (list_head s) s = Ok l s ->
  (forall x, In x l -> exists h, load W (HDRP W x) s = Some h) ->
  exists r, find_fit W asize s = Ok r s /\ first_fit_of W s asize l r.
Proof. intros E Hh. unfold find_fit. now apply find_fit_loop_first_fit. Qed.

Lemma find_fit_first_fit_witness :
  (list_walk 8 (heap_fuel 8 heap_two_freed) (list_head heap_two_freed) heap_two_freed
     = Ok [4256; 4160; 4352; 4120] heap_two_freed /\
   (forall x, In x [4256; 4160; 4352; 4120] ->
              exists h, load 8 (HDRP 8 x) heap_two_freed = Some h)) /\
  exists r, find_fit 8 64 heap_two_freed = Ok r heap_two_freed /\
            first_fit_of 8 heap_two_freed 64 [4256; 4160; 4352; 4120] r.
Proof.
  assert (E : list_walk 8 (heap_fuel 8 heap_two_freed) (list_head heap_two_freed)
                heap_two_freed = Ok [4256; 4160; 4352; 4120] heap_two_freed)
    by eval_fact.
  assert (Hh : forall x, In x [4256; 4160; 4352; 4120] ->
                         exists h, load 8 (HDRP 8 x) heap_two_freed = Some h).
  { intros x [<- | [<- | [<- | [<- | []]]]];
      [exists 48 | exists 48 | exists 3904 | exists 17]; eval_fact. }
  split; [split; assumption |].
  exact (find_fit_first_fit 8 heap_two_freed 64 [4256; 4160; 4352; 4120] E Hh).
Defined.

(** ** [mm_malloc] when the provider has no more memory *)

(** X4.  When no block of the free list is large enough for the adjusted
    size and the provider refuses to extend the heap, [mm_malloc] returns
    null and leaves the heap exactly as it was. *)
Theorem mm_malloc_exhausted W s size l :
  size <> 0 ->
  list_walk W (heap_fuel W s) (list_head s) s = Ok l s ->
  (forall x, In x l ->
     exists h, load W (HDRP W x) s = Some h /\ size_of W h < adjust_size W size) ->
  mem_max s < mem_brk s + extend_bytes W (MAX (adjust_size W size) CHUNKSIZE / W) ->
  mm_malloc W size s = Ok 0 s.
Proof.
  intros Hs E Hh Hmax. unfold mm_malloc.
  destruct (size =? 0) eqn:E0; [apply Z.eqb_eq in E0; contradiction |].
  cbv zeta. unfold malloc_adjusted.
  destruct (find_fit_loop_first_fit W (adjust_size W size) _ _ _ _ E) as (r & Er & Hr).
  { intros x Hx. destruct (Hh x Hx) as (h & Hl & _). eauto. }
  assert (r = 0) as ->.
  { destruct Hr as [[-> _] | (l1 & l2 & h & -> & Hl & Hge & _)]; [reflexivity |].
    destruct (Hh r) as (h' & Hl' & Hlt); [apply in_elt |].
    rewrite Hl in Hl'. inversion Hl'. subst h'. lia. }
  change (find_fit_loop W (heap_fuel W s) (adjust_size W size) (list_head s) s)
    with (find_fit W (adjust_size W size) s) in Er.
  rewrite (bind_Ok _ _ _ _ _ Er). cbn [Z.eqb negb]. cbv zeta.
  unfold extend_heap. cbv zeta.
  assert (Esb : mem_sbrk W (extend_bytes W (MAX (adjust_size W size) CHUNKSIZE / W)) s
                = Ok (wrap W (-1)) s).
  { unfold mem_sbrk.
    destruct (_ <=? mem_max s) eqn:El; [apply Z.leb_le in El; lia | reflexivity]. }
  rewrite bind_assoc, (bind_Ok _ _ _ _ _ Esb), Z.eqb_refl. reflexivity.
Qed.

Lemma mm_malloc_exhausted_witness :
  (5000 <> 0 /\
   list_walk 8 (heap_fuel 8 heap_full) (list_head heap_full) heap_full
     = Ok [4160; 4120] heap_full /\
   (forall x, In x [4160; 4120] ->
      exists h, load 8 (HDRP 8 x) heap_full = Some h /\
                size_of 8 h < adjust_size 8 5000) /\
   mem_max heap_full
     < mem_brk heap_full + extend_bytes 8 (MAX (adjust_size 8 5000) CHUNKSIZE / 8)) /\
  mm_malloc 8 5000 heap_full = Ok 0 heap_full.
Proof.
  assert (E : list_walk 8 (heap_fuel 8 heap_full) (list_head heap_full) heap_full
              = Ok [4160; 4120] heap_full) by eval_fact.
  assert (Hh : forall x, In x [4160; 4120] ->
      exists h, load 8 (HDRP 8 x) heap_full = Some h /\
                size_of 8 h < adjust_size 8 5000).
  { intros x [<- | [<- | []]]; [exists 4096 | exists 17]; split; eval_fact. }
  assert (Hm : mem_max heap_full
     < mem_brk heap_full + extend_bytes 8 (MAX (adjust_size 8 5000) CHUNKSIZE / 8))
    by eval_fact.
  assert (Hz : 5000 <> 0) by eval_fact.
  split; [split; [exact Hz | split; [exact E | split; assumption]] |].
  exact (mm_malloc_exhausted 8 heap_full 5000 [4160; 4120] Hz E Hh Hm).
Defined.

(** ** The heap only grows *)

Lemma grows_refl s : grows s s.
Proof. unfold grows. repeat split; lia. Qed.

Lemma grows_trans s1 s2 s3 : grows s1 s2 -> grows s2 s3 -> grows s1 s3.
Proof. unfold grows. intros (A & B & C & D) (A' & B' & C' & D'). repeat split; congruence || lia. Qed.

Lemma keeps_ret {A} (a : A) : keeps (ret a).
Proof. intros s a' s' E. inversion E. apply grows_refl. Qed.

Lemma keeps_bind {A B} (m : M A) (k : A -> M B) :
  keeps m -> (forall a, keeps (k a)) -> keeps (bind m k).
Proof.
  intros Hm Hk s b s' E. rewrite bind_unfold in E.
  destruct (m s) as [a s1 | |] eqn:E1; try discriminate.
  eapply grows_trans; [eapply Hm | eapply Hk]; eauto.
Qed.

Lemma keeps_GET W p : keeps (GET W p).
Proof.
  intros s a s' E. unfold GET in E. destruct (load W p s); inversion E.
  apply grows_refl.
Qed.

Lemma keeps_PUT W p v : keeps (PUT W p v).
Proof.
  intros s a s' E. unfold PUT in E. destruct (valid_addr W p s); inversion E.
  unfold grows. cbn. repeat split; lia.
Qed.

Lemma keeps_get_list_head : keeps get_list_head.
Proof. intros s a s' E. inversion E. apply grows_refl. Qed.

Lemma keeps_put_list_head p : keeps (put_list_head p).
Proof. intros s a s' E. inversion E. unfold grows. cbn. repeat split; lia. Qed.

Lemma keeps_mem_sbrk W incr : 0 <= incr -> keeps (mem_sbrk W incr).
Proof.
  intros Hi s a s' E. unfold mem_sbrk in E.
  destruct (mem_brk s + incr <=? mem_max s); inversion E.
  - unfold grows. cbn. repeat split; lia.
  - apply grows_refl.
Qed.

Create HintDb keeps.
#[local] Hint Resolve keeps_ret keeps_GET keeps_PUT keeps_get_list_head
  keeps_put_list_head : keeps.

(** Takes a straight-line body apart along its binds and branches. *)
Ltac keeps_step :=
  first
    [ progress cbv zeta
    | solve [auto with keeps]
    | match goal with
      | |- keeps (if ?b then _ else _) => destruct b
      | |- keeps (match ?x with Some _ => _ | None => _ end) => destruct x
      end
    | apply keeps_bind; [| intros] ].
Ltac keeps_body := repeat keeps_step.

Lemma keeps_GET_SIZE W p : keeps (GET_SIZE W p).
Proof. unfold GET_SIZE. keeps_body. Qed.
Lemma keeps_GET_ALLOC W p : keeps (GET_ALLOC W p).
Proof. unfold GET_ALLOC. keeps_body. Qed.
#[local] Hint Resolve keeps_GET_SIZE keeps_GET_ALLOC : keeps.

Lemma keeps_FTRP W bp : keeps (FTRP W bp).
Proof. unfold FTRP. keeps_body. Qed.
Lemma keeps_NEXT_BLKP W bp : keeps (NEXT_BLKP W bp).
Proof. unfold NEXT_BLKP. keeps_body. Qed.
Lemma keeps_PREV_BLKP W bp : keeps (PREV_BLKP W bp).
Proof. unfold PREV_BLKP. keeps_body. Qed.
Lemma keeps_GET_NEXTP W bp : keeps (GET_NEXTP W bp).
Proof. unfold GET_NEXTP. keeps_body. Qed.
Lemma keeps_GET_PREVP W bp : keeps (GET_PREVP W bp).
Proof. unfold GET_PREVP. keeps_body. Qed.
Lemma keeps_SET_NEXTP W bp q : keeps (SET_NEXTP W bp q).
Proof. unfold SET_NEXTP. keeps_body. Qed.
Lemma keeps_SET_PREVP W bp q : keeps (SET_PREVP W bp q).
Proof. unfold SET_PREVP. keeps_body. Qed.
#[local] Hint Resolve keeps_FTRP keeps_NEXT_BLKP keeps_PREV_BLKP keeps_GET_NEXTP
  keeps_GET_PREVP keeps_SET_NEXTP keeps_SET_PREVP : keeps.

Lemma keeps_insert_list W bp : keeps (insert_list W bp).
Proof. unfold insert_list. keeps_body. Qed.
Lemma keeps_remove_list W bp : keeps (remove_list W bp).
Proof. unfold remove_list. keeps_body. Qed.
#[local] Hint Resolve keeps_insert_list keeps_remove_list : keeps.

Lemma keeps_coalesce W bp : keeps (coalesce W bp).
Proof. unfold coalesce. keeps_body. Qed.
#[local] Hint Resolve keeps_coalesce : keeps.

Lemma wrap_nonneg W x : W = 4 \/ W = 8 -> 0 <= wrap W x.
Proof. intros HW. w_lia HW. Qed.

Lemma keeps_extend_heap W words : W = 4 \/ W = 8 -> keeps (extend_heap W words).
Proof.
  intros HW. unfold extend_heap. cbv zeta. apply keeps_bind.
  - apply keeps_mem_sbrk. unfold extend_bytes.
    destruct (negb _); now apply wrap_nonneg.
  - intros bp. keeps_body.
Qed.

Lemma keeps_find_fit_loop W asize fuel : forall bp, keeps (find_fit_loop W fuel asize bp).
Proof.
  induction fuel as [| n IH]; intros bp; cbn [find_fit_loop].
  - intros s a s' E. discriminate.
  - keeps_body.
Qed.

Lemma keeps_find_fit W asize : keeps (find_fit W asize).
Proof. intros s a s' E. unfold find_fit in E. eapply keeps_find_fit_loop; eauto. Qed.

Lemma keeps_place W bp asize : keeps (place W bp asize).
Proof. unfold place. keeps_body. Qed.
#[local] Hint Resolve keeps_find_fit keeps_place : keeps.

Lemma keeps_mm_malloc W size : W = 4 \/ W = 8 -> keeps (mm_malloc W size).
Proof.
  intros HW. pose proof (keeps_extend_heap W) as He.
  unfold mm_malloc, malloc_adjusted. keeps_body.
Qed.

Lemma keeps_mm_free W bp : keeps (mm_free W bp).
Proof. unfold mm_free. keeps_body. Qed.

Lemma keeps_memcpy_words W n : forall dst src, keeps (memcpy_words W n dst src).
Proof.
  induction n as [| n IH]; intros dst src; cbn [memcpy_words]; keeps_body.
Qed.

Lemma keeps_memcpy W dst src n : keeps (memcpy W dst src n).
Proof. pose proof (keeps_memcpy_words W) as Hw. unfold memcpy. keeps_body. Qed.

Lemma keeps_mm_realloc W ptr size : W = 4 \/ W = 8 -> keeps (mm_realloc W ptr size).
Proof.
  intros HW. pose proof (keeps_mm_malloc W) as Hm. pose proof (keeps_mm_free W) as Hf.
  pose proof (keeps_memcpy W) as Hc.
  unfold mm_realloc. keeps_body.
Qed.

Lemma keeps_run_calls W cs : W = 4 \/ W = 8 -> keeps (run_calls W cs).
Proof.
  intros HW. induction cs as [| c cs IH]; cbn [run_calls]; [apply keeps_ret |].
  apply keeps_bind.
  - destruct c.
    + now apply keeps_mm_malloc.
    + apply keeps_bind; [apply keeps_mm_free | intros; apply keeps_ret].
    + now apply keeps_mm_realloc.
  - intros r. apply keeps_bind; [exact IH | intros; apply keeps_ret].
Qed.

(** X5.  Whatever sequence of [mm_malloc], [mm_free] and [mm_realloc] calls
    runs to its end, the heap keeps its base and [heap_listp], its top never
    moves down, and every word that was inside the heap before is inside it
    afterwards: memory is never given back to the provider. *)
Theorem heap_never_shrinks W cs s rs s' :
  W = 4 \/ W = 8 ->
  run_calls W cs s = Ok rs s' ->
  mem_lo s' = mem_lo s /\ heap_listp s' = heap_listp s /\
  mem_brk s <= mem_brk s' /\
  forall a, valid_addr W a s = true -> valid_addr W a s' = true.
Proof.
  intros HW E. destruct (keeps_run_calls W cs HW _ _ _ E) as (Hlo & _ & Hhl & Hbrk).
  repeat split; auto.
  intros a. unfold valid_addr. rewrite Hlo.
  destruct (mem_lo s <=? a); [| discriminate].
  destruct (a mod W =? 0); [| now rewrite !andb_false_r].
  rewrite !andb_true_r. cbn [andb]. intros H. apply Z.leb_le in H. apply Z.leb_le. lia.
Qed.

Lemma heap_never_shrinks_witness :
  run_calls 8 [Malloc 1024; Malloc 1024; Malloc 1024; Free 5200; Malloc 2000]
    (after 8 [])
  = Ok [4160; 5200; 6240; 0; 7280]
       (after 8 [Malloc 1024; Malloc 1024; Malloc 1024; Free 5200; Malloc 2000]) /\
  mem_brk (after 8 []) = 8256 /\
  mem_brk (after 8 [Malloc 1024; Malloc 1024; Malloc 1024; Free 5200; Malloc 2000])
    = 12352 /\
  (mem_lo (after 8 [Malloc 1024; Malloc 1024; Malloc 1024; Free 5200; Malloc 2000])
     = mem_lo (after 8 []) /\
   heap_listp (after 8 [Malloc 1024; Malloc 1024; Malloc 1024; Free 5200; Malloc 2000])
     = heap_listp (after 8 []) /\
   mem_brk (after 8 [])
     <= mem_brk (after 8 [Malloc 1024; Malloc 1024; Malloc 1024; Free 5200; Malloc 2000]) /\
   forall a, valid_addr 8 a (after 8 []) = true ->
             valid_addr 8 a
               (after 8 [Malloc 1024; Malloc 1024; Malloc 1024; Free 5200; Malloc 2000])
             = true).
Proof.
  assert (E : run_calls 8 [Malloc 1024; Malloc 1024; Malloc 1024; Free 5200; Malloc 2000]
                (after 8 [])
              = Ok [4160; 5200; 6240; 0; 7280]
                  (after 8 [Malloc 1024; Malloc 1024; Malloc 1024; Free 5200; Malloc 2000]))
    by eval_fact.
  split; [exact E | split; [eval_fact | split; [eval_fact |]]].
  exact (heap_never_shrinks 8 _ _ _ _ (or_intror eq_refl) E).
Defined.

(** ** The free list as a sequence of nodes *)

Lemma list_walk_linked W fuel : forall p s l,
  list_walk W fuel p s = Ok l s -> linked_to W s p l 0 /\ (length l < fuel)%nat.
Proof.
  induction fuel as [| n IH]; intros p s l E; [discriminate |].
  destruct (list_walk_step W _ _ _ _ E) as [[-> ->] | (Hp & nx & rest & Hn & -> & E1)].
  - split; [reflexivity | cbn; lia].
  - destruct (IH _ _ _ E1) as [Hl Hlen]. split; [| cbn; lia].
    cbn. split; [reflexivity | split; [exact Hp |]]. eauto.
Qed.

Lemma linked_list_walk W fuel : forall p s l,
  linked_to W s p l 0 -> (length l < fuel)%nat -> list_walk W fuel p s = Ok l s.
Proof.
  induction fuel as [| n IH]; intros p s l Hl Hlen; [lia |].
  destruct l as [| x l]; cbn in Hl.
  - subst p. reflexivity.
  - destruct Hl as (-> & Hx & nx & Hn & Hl). cbn [list_walk].
    destruct (x =? 0) eqn:E0; [apply Z.eqb_eq in E0; contradiction |].
    unfold GET_NEXTP. rewrite (bind_GET W _ _ _ _ Hn).
    rewrite (bind_Ok _ _ _ _ _ (IH _ _ _ Hl ltac:(cbn in Hlen; lia))). reflexivity.
Qed.

Lemma linked_to_cons W s p x l q :
  linked_to W s p (x :: l) q <->
  p = x /\ x <> 0 /\
  exists n, load W (wrap W (x + W)) s = Some n /\ linked_to W s n l q.
Proof. reflexivity. Qed.

Lemma linked_to_app W s l1 : forall p l2 q,
  linked_to W s p (l1 ++ l2) q <->
  exists m, linked_to W s p l1 m /\ linked_to W s m l2 q.
Proof.
  induction l1 as [| x l1 IH]; intros p l2 q; cbn.
  - split; [intros H; exists p; auto | intros (m & -> & H); exact H].
  - split.
    + intros (-> & Hx & n & Hn & Hl). apply IH in Hl as (m & H1 & H2).
      exists m. split; [| exact H2]. split; [reflexivity | split; [exact Hx |]]. eauto.
    + intros (m & (-> & Hx & n & Hn & H1) & H2).
      split; [reflexivity | split; [exact Hx |]]. exists n. split; [exact Hn |].
      apply IH. eauto.
Qed.

Lemma linked_to_frame W s s' l : forall p q,
  (forall x, In x l -> load W (wrap W (x + W)) s' = load W (wrap W (x + W)) s) ->
  linked_to W s p l q -> linked_to W s' p l q.
Proof.
  induction l as [| x l IH]; intros p q Hf Hl; cbn in *; [exact Hl |].
  destruct Hl as (-> & Hx & n & Hn & Hl).
  split; [reflexivity | split; [exact Hx |]]. exists n. split.
  - rewrite Hf by auto. exact Hn.
  - apply IH; [intros y Hy; apply Hf; auto | exact Hl].
Qed.

Lemma linked_to_nonzero W s l : forall p q x,
  linked_to W s p l q -> In x l -> x <> 0.
Proof.
  induction l as [| y l IH]; intros p q x Hl Hx; [destruct Hx |].
  cbn in Hl. destruct Hl as (-> & Hy & n & Hn & Hl).
  destruct Hx as [<- | Hx]; [exact Hy | eapply IH; eauto].
Qed.

Section Slots.

Variable W : Z.
Hypothesis HW : W = 4 \/ W = 8.
Variable l : list Z.
Hypothesis Hl : nodes_apart W l.

Lemma slot_ne x y : In x l -> In y l -> wrap W (x + W) <> y.
Proof.
  intros Hx Hy. destruct Hl as [Hr Hp].
  pose proof (Hr x Hx) as Hrx. pose proof (Hr y Hy) as Hry.
  destruct (Z.eq_dec x y) as [-> | Hne]; [w_lia HW |].
  pose proof (Hp x y Hx Hy Hne). w_lia HW.
Qed.

Lemma slot_inj x y : In x l -> In y l -> x <> y -> wrap W (x + W) <> wrap W (y + W).
Proof.
  intros Hx Hy Hne. destruct Hl as [Hr _].
  pose proof (Hr x Hx) as Hrx. pose proof (Hr y Hy) as Hry. w_lia HW.
Qed.

Lemma slot_ne_0 x : In x l -> wrap W (x + W) <> 0 /\ wrap W (x + W) <> wrap W (0 + W) /\ x <> 0.
Proof.
  intros Hx. destruct Hl as [Hr _]. pose proof (Hr x Hx) as Hrx. w_lia HW.
Qed.

End Slots.




Lemma list_nil_or_snoc {A} (l : list A) : l = [] \/ exists l' a, l = l' ++ [a].
Proof. induction l using rev_ind; [now left | right; eauto]. Qed.

Lemma remove_list_linked W s l1 bp n l2 :
  W = 4 \/ W = 8 ->
  linked_to W s (list_head s) (l1 ++ bp :: n :: l2) 0 ->
  List.NoDup (l1 ++ bp :: n :: l2) ->
  nodes_apart W (l1 ++ bp :: n :: l2) ->
  load W bp s = Some (List.last l1 0) ->
  valid_addr W n s = true ->
  exists s', remove_list W bp s = Ok tt s' /\
             linked_to W s' (list_head s') (l1 ++ n :: l2) 0.
Proof.
  intros HW Hl Hnd Hap Hprev Vn.
  apply linked_to_app in Hl as (m & Hl1 & Hl2).
  cbn in Hl2. destruct Hl2 as (-> & Hbnz & n' & Hbn & -> & Hnnz & nn & Hnn & Hl2).
  assert (Hb : In bp (l1 ++ bp :: n :: l2)) by apply in_elt.
  assert (Hn : In n (l1 ++ bp :: n :: l2)) by (apply in_or_app; right; right; now left).
  assert (Htail : linked_to W s n (n :: l2) 0).
  { cbn. split; [reflexivity | split; [exact Hnnz |]]. eauto. }
  destruct (list_nil_or_snoc l1) as [-> | (l1' & prev & ->)].
  - (* [bp] is the head: the head becomes [n] *)
    cbn in Hprev, Hl1.
    pose proof (remove_list_post W s bp 0 n Hprev Hbn (or_introl eq_refl)) as P.
    cbn [Z.eqb orb andb] in P. rewrite Vn in P.
    destruct P as (s' & E & _ & Hh & _ & Hf).
    exists s'. split; [exact E |]. rewrite Hh. cbn [Z.eqb app].
    apply (linked_to_frame W s); [| exact Htail].
    intros x Hx.
    assert (Hx' : In x ([] ++ bp :: n :: l2)) by (cbn; right; exact Hx).
    apply Hf.
    + exact (proj1 (proj2 (slot_ne_0 W HW _ Hap x Hx'))).
    + exact (slot_ne W HW _ Hap x n Hx' Hn).
  - (* [bp] follows [prev] *)
    rewrite List.last_last in Hprev.
    apply linked_to_app in Hl1 as (m1 & Hl1 & Hp).
    cbn in Hp. destruct Hp as (-> & Hpnz & b' & Hpn & ->).
    assert (Hpi : In prev ((l1' ++ [prev]) ++ bp :: n :: l2)).
    { rewrite <- app_assoc. apply in_elt. }
    pose proof Hnd as Hnd'. rewrite <- app_assoc in Hnd'. cbn [app] in Hnd'.
    pose proof (NoDup_remove_2 _ _ _ Hnd') as Hpnin.
    assert (Hpb : prev <> bp).
    { intros ->. apply Hpnin, in_or_app. right. now left. }
    assert (Hpn' : prev <> n).
    { intros ->. apply Hpnin, in_or_app. right. right. now left. }
    pose proof (remove_list_post W s bp prev n Hprev Hbn) as P.
    assert (Hal1 : prev = 0 \/ bp <> wrap W (prev + W)).
    { right. intros H. symmetry in H. exact (slot_ne W HW _ Hap prev bp Hpi Hb H). }
    specialize (P Hal1).
    rewrite (proj2 (Z.eqb_neq prev 0) Hpnz) in P. cbn [orb] in P.
    replace (valid_addr W (wrap W (prev + W)) s) with true in P
      by (symmetry; unfold load in Hpn; destruct (valid_addr W (wrap W (prev + W)) s);
          [reflexivity | discriminate]).
    rewrite Vn in P. cbn [andb] in P.
    destruct P as (s' & E & _ & Hh & Hw & Hf).
    exists s'. split; [exact E |]. rewrite Hh, (proj2 (Z.eqb_neq prev 0) Hpnz).
    rewrite <- app_assoc. cbn [app].
    apply linked_to_app. exists prev. split.
    + apply (linked_to_frame W s); [| exact Hl1].
      intros x Hx.
      assert (Hx' : In x ((l1' ++ [prev]) ++ bp :: n :: l2)).
      { rewrite <- app_assoc. apply in_or_app. now left. }
      apply Hf.
      * apply (slot_inj W HW _ Hap x prev Hx' Hpi). intros ->.
        apply Hpnin, in_or_app. now left.
      * exact (slot_ne W HW _ Hap x n Hx' Hn).
    + apply linked_to_cons. split; [reflexivity | split; [exact Hpnz |]]. exists n. split.
      * apply Hw; [exact Hpnz |]. intros H. symmetry in H.
        exact (slot_ne W HW _ Hap prev n Hpi Hn H).
      * apply (linked_to_frame W s); [| exact Htail].
        intros x Hx.
        assert (Hx' : In x ((l1' ++ [prev]) ++ bp :: n :: l2)).
        { apply in_or_app. right. right. exact Hx. }
        apply Hf.
        -- apply (slot_inj W HW _ Hap x prev Hx' Hpi). intros ->.
           apply Hpnin, in_or_app. right. right. exact Hx.
        -- exact (slot_ne W HW _ Hap x n Hx' Hn).
Qed.

(** X7.  [remove_list] takes the node out of the free list: for a node that
    has a successor on a list of pairwise different nodes whose link words
    do not overlap, and whose prev link names its predecessor (null for the
    head), the walk of the list afterwards meets the same nodes in the same
    order, without the node. *)
Theorem remove_list_walk W s fuel l1 bp n l2 :
  W = 4 \/ W = 8 ->
  list_walk W fuel (list_head s) s = Ok (l1 ++ bp :: n :: l2) s ->
  List.NoDup (l1 ++ bp :: n :: l2) ->
  nodes_apart W (l1 ++ bp :: n :: l2) ->
  load W bp s = Some (List.last l1 0) ->
  valid_addr W n s = true ->
  exists s', remove_list W bp s = Ok tt s' /\
             list_walk W fuel (list_head s') s' = Ok (l1 ++ n :: l2) s'.
Proof.
  intros HW E Hnd Hap Hprev Vn.
  destruct (list_walk_linked W _ _ _ _ E) as [Hl Hlen].
  destruct (remove_list_linked W s l1 bp n l2 HW Hl Hnd Hap Hprev Vn) as (s' & Er & Hl').
  exists s'. split; [exact Er |]. apply linked_list_walk; [exact Hl' |].
  rewrite length_app in *. cbn in *. lia.
Qed.

Lemma remove_list_walk_witness :
  (list_walk 8 (heap_fuel 8 heap_two_freed) (list_head heap_two_freed) heap_two_freed
     = Ok ([4256] ++ 4160 :: 4352 :: [4120]) heap_two_freed /\
   List.NoDup ([4256] ++ 4160 :: 4352 :: [4120]) /\
   nodes_apart 8 ([4256] ++ 4160 :: 4352 :: [4120]) /\
   load 8 4160 heap_two_freed = Some (List.last [4256] 0) /\
   valid_addr 8 4352 heap_two_freed = true) /\
  exists s', remove_list 8 4160 heap_two_freed = Ok tt s' /\
             list_walk 8 (heap_fuel 8 heap_two_freed) (list_head s') s'
             = Ok ([4256] ++ 4352 :: [4120]) s'.
Proof.
  assert (Hnd : List.NoDup ([4256] ++ 4160 :: 4352 :: [4120])).
  { cbn. repeat constructor; cbn; intros H;
      repeat (destruct H as [H | H]; [discriminate H |]); exact H. }
  assert (A : nodes_apart 8 ([4256] ++ 4160 :: 4352 :: [4120])).
  { unfold nodes_apart. change (DSIZE 8) with 16.
    change (2 ^ wbits 8) with 18446744073709551616.
    split; [intros x Hx | intros x y Hx Hy Hne].
    - destruct Hx as [<- | [<- | [<- | [<- | []]]]]; lia.
    - destruct Hx as [<- | [<- | [<- | [<- | []]]]];
        destruct Hy as [<- | [<- | [<- | [<- | []]]]]; lia. }
  assert (E : list_walk 8 (heap_fuel 8 heap_two_freed) (list_head heap_two_freed)
                heap_two_freed
              = Ok ([4256] ++ 4160 :: 4352 :: [4120]) heap_two_freed) by eval_fact.
  assert (Hp : load 8 4160 heap_two_freed = Some (List.last [4256] 0)) by eval_fact.
  assert (V : valid_addr 8 4352 heap_two_freed = true) by eval_fact.
  split; [split; [exact E | split; [exact Hnd | split; [exact A | split; [exact Hp | exact V]]]] |].
  exact (remove_list_walk 8 _ _ [4256] 4160 4352 [4120] (or_intror eq_refl) E Hnd A Hp V).
Defined.

(** * The allocator on a heap with symbolic addresses

    The properties below hold for every word size, every start address of
    the heap and every request size in their range.  Their proofs run the
    code on a heap written as the sequence of stores made so far; the
    tactics of this part take one step of the program at a time and
    discharge the address arithmetic the step needs. *)

Lemma wrap_small W x : 0 <= x < 2 ^ wbits W -> wrap W x = x.
Proof. intros H. unfold wrap. now apply Z.mod_small. Qed.

Lemma valid_mk W p m lo brk mx hl lh :
  lo <= p /\ p + W <= brk /\ p mod W = 0 ->
  valid_addr W p (mkState m lo brk mx hl lh) = true.
Proof.
  intros (H1 & H2 & H3). unfold valid_addr. cbn [mem_lo mem_brk].
  apply andb_true_intro; split; [apply andb_true_intro; split |].
  - now apply Z.leb_le.
  - now apply Z.leb_le.
  - now apply Z.eqb_eq.
Qed.

Lemma PUT_mk W p v m lo brk mx hl lh :
  lo <= p /\ p + W <= brk /\ p mod W = 0 ->
  PUT W p v (mkState m lo brk mx hl lh) = Ok tt (mkState (<[p := v]> m) lo brk mx hl lh).
Proof. intros H. unfold PUT. now rewrite valid_mk. Qed.

Lemma load_mk W p m lo brk mx hl lh :
  lo <= p /\ p + W <= brk /\ p mod W = 0 ->
  load W p (mkState m lo brk mx hl lh) = Some (default 0 (m !! p)).
Proof. intros H. unfold load. now rewrite valid_mk. Qed.

Lemma mem_sbrk_mk_ok W incr m lo brk mx hl lh :
  brk + incr <= mx ->
  mem_sbrk W incr (mkState m lo brk mx hl lh) = Ok brk (mkState m lo (brk + incr) mx hl lh).
Proof.
  intros H. unfold mem_sbrk. cbn [mem_brk mem_max].
  destruct (brk + incr <=? mx) eqn:E; [reflexivity | apply Z.leb_gt in E; lia].
Qed.

Lemma mem_sbrk_mk_fail W incr m lo brk mx hl lh :
  mx < brk + incr ->
  mem_sbrk W incr (mkState m lo brk mx hl lh) = Ok (wrap W (-1)) (mkState m lo brk mx hl lh).
Proof.
  intros H. unfold mem_sbrk. cbn [mem_brk mem_max].
  destruct (brk + incr <=? mx) eqn:E; [apply Z.leb_le in E; lia | reflexivity].
Qed.

Lemma bind_get_list_head_mk {B} (k : Z -> M B) m lo brk mx hl lh :
  bind get_list_head k (mkState m lo brk mx hl lh) = k lh (mkState m lo brk mx hl lh).
Proof. reflexivity. Qed.

Lemma bind_get_heap_listp_mk {B} (k : Z -> M B) m lo brk mx hl lh :
  bind get_heap_listp k (mkState m lo brk mx hl lh) = k hl (mkState m lo brk mx hl lh).
Proof. reflexivity. Qed.

Lemma bind_put_list_head_mk {B} p (k : unit -> M B) m lo brk mx hl lh :
  bind (put_list_head p) k (mkState m lo brk mx hl lh) = k tt (mkState m lo brk mx hl p).
Proof. reflexivity. Qed.

Lemma bind_put_heap_listp_mk {B} p (k : unit -> M B) m lo brk mx hl lh :
  bind (put_heap_listp p) k (mkState m lo brk mx hl lh) = k tt (mkState m lo brk mx p lh).
Proof. reflexivity. Qed.

Lemma alloc_of_size W n : W = 4 \/ W = 8 -> is_size W n -> alloc_of n = 0.
Proof.
  intros HW [Hr Hm]. unfold alloc_of.
  change 1 with (Z.ones 1). rewrite Z.land_ones by lia. change (2 ^ 1) with 2.
  w_lia HW.
Qed.

Lemma lookup_insert_same (m : gmap Z Z) k k' v : k = k' -> <[k := v]> m !! k' = Some v.
Proof. intros ->. apply lookup_insert_eq. Qed.

Lemma insert_eq (m m' : gmap Z Z) k k' v v' :
  k = k' -> v = v' -> m = m' -> <[k := v]> m = <[k' := v']> m'.
Proof. now intros -> -> ->. Qed.

Ltac word_size := first [left; reflexivity | right; reflexivity].

Lemma to_int_small x : 0 <= x < 2 ^ 31 -> to_int x = x.
Proof.
  intros H. unfold to_int. rewrite Z.mod_small by lia.
  destruct (x <? 2 ^ 31) eqn:E; [reflexivity | apply Z.ltb_ge in E; lia].
Qed.

(** An address is a word of the heap. *)
Ltac in_heap_side := unfold DSIZE; Z.div_mod_to_equations; lia.

(** Side conditions: linear facts about addresses, with the wrap-around
    and the alignment unfolded when needed. *)
Ltac side :=
  lazymatch goal with
  | |- _ mod _ = 0 => unfold DSIZE; Z.div_mod_to_equations; lia
  | |- _ =>
      first [ assumption
            | reflexivity
            | unfold wrap, DSIZE;
              change (2 ^ wbits 8) with 18446744073709551616;
              change (2 ^ wbits 4) with 4294967296;
              first [ lia | Z.div_mod_to_equations; lia ] ]
  end.

Lemma multiple_of W x : W <> 0 -> x mod W = 0 -> exists k, x = W * k.
Proof. intros HW H. exists (x / W). now apply Z_div_exact_full_2. Qed.

Lemma is_size_multiple W n :
  W = 4 \/ W = 8 -> is_size W n -> 0 <= n < 2 ^ wbits W /\ exists k, n = 2 * W * k.
Proof.
  intros HW [Hr Hm]. split; [exact Hr |].
  apply multiple_of; [destruct HW; subst; discriminate | exact Hm].
Qed.

(** The facts about sizes and alignment, in linear form. *)
Ltac prep :=
  repeat match goal with
  | H : ?x mod ?W = 0 |- _ =>
      let k := fresh "k" in
      apply multiple_of in H; [destruct H as [k H] | discriminate]
  | H : is_size ?W ?n |- _ =>
      lazymatch goal with
      | _ : exists k, n = 2 * W * k |- _ => fail
      | _ => let H1 := fresh in let H2 := fresh in
             destruct (is_size_multiple W n ltac:(word_size) H) as [H1 H2]
      end
  end;
  repeat match goal with
  | H : exists k, _ = _ |- _ => let q := fresh "q" in destruct H as [q H]
  end;
  unfold DSIZE in *;
  change (2 ^ wbits 8) with 18446744073709551616 in *;
  change (2 ^ wbits 4) with 4294967296 in *.

(** A lookup in a heap written as a sequence of stores. *)
Ltac lookup_norm :=
  repeat first [ rewrite lookup_insert_ne by (unfold DSIZE; lia)
               | rewrite lookup_insert_same by (unfold DSIZE; lia) ];
  cbn [default from_option id].

Ltac is_number r :=
  lazymatch r with
  | Z0 => idtac | Zpos _ => idtac | Zneg _ => idtac
  end.

Ltac no_vars t :=
  match t with
  | context [?x] => is_var x; fail 1
  | _ => idtac
  end.

(** Size and allocated fields of known words. *)
Ltac vals :=
  repeat match goal with
  | |- context [size_of ?W ?v] =>
      no_vars v;
      let r := eval vm_compute in (size_of W v) in
      is_number r; change (size_of W v) with r
  | |- context [alloc_of ?v] =>
      no_vars v;
      let r := eval vm_compute in (alloc_of v) in
      is_number r; change (alloc_of v) with r
  | |- context [PACK ?n ?a] =>
      no_vars n;
      let r := eval vm_compute in (PACK n a) in
      is_number r; change (PACK n a) with r
  | |- context [extend_bytes ?W ?n] =>
      no_vars n;
      let r := eval vm_compute in (extend_bytes W n) in
      is_number r; change (extend_bytes W n) with r
  | H : is_size ?W ?n |- context [size_of ?W (PACK ?n 1)] =>
      rewrite (size_of_PACK_1 W ltac:(word_size) n H)
  | H : is_size ?W ?n |- context [alloc_of (PACK ?n 1)] =>
      rewrite (alloc_of_PACK_1 W ltac:(word_size) n H)
  | |- context [PACK ?n 0] => rewrite (PACK_0 n)
  | H : is_size ?W ?n |- context [size_of ?W ?n] =>
      rewrite (size_of_is_size W ltac:(word_size) n H)
  | H : is_size ?W ?n |- context [alloc_of ?n] =>
      rewrite (alloc_of_size W n ltac:(word_size) H)
  | H : forall a, a = _ -> size_of ?W (default 0 (?m !! a)) = 0
    |- context [size_of ?W (default 0 (?m !! ?a))] => rewrite (H a) by side
  | |- context [wrap ?W ?x] =>
      lazymatch x with
      | context [wrap _ _] => fail
      | -1 => fail
      | _ => rewrite (wrap_small W x) by side
      end
  | |- context [?a + (?b - ?a)] => replace (a + (b - a)) with b by lia
  | |- context [?a + ?b - ?a] => replace (a + b - a) with b by lia
  | |- context [?a + ?b - ?b] => replace (a + b - b) with a by lia
  | |- context [?a - 0] => replace (a - 0) with a by lia
  | |- context [size_of ?W ?e] => progress ring_simplify e
  end.

(** Addresses that do not wrap around. *)
Ltac norm_addr p :=
  match p with
  | context [HDRP ?W ?x] => unfold HDRP at 1
  | context [wrap ?W ?x] =>
      lazymatch x with
      | context [wrap _ _] => fail
      | _ => rewrite (wrap_small W x) by side
      end
  end.

Ltac norm_load :=
  repeat match goal with
  | |- load _ ?p _ = _ => norm_addr p
  end.

Ltac load_solve :=
  vals; norm_load;
  lazymatch goal with
  | |- load ?W ?p (mkState ?m ?lo ?brk ?mx ?hl ?lh) = _ =>
      rewrite (load_mk W p m lo brk mx hl lh) by in_heap_side
  end;
  lookup_norm.

(** A test of the program, decided from the facts at hand. *)
Ltac cond c :=
  match c with
  | context [?a =? ?b] =>
      first [ rewrite (proj2 (Z.eqb_neq a b)) by side
            | rewrite (proj2 (Z.eqb_eq a b)) by side ]
  | context [?a <=? ?b] =>
      first [ rewrite (proj2 (Z.leb_le a b)) by side
            | rewrite (proj2 (Z.leb_gt a b)) by side ]
  | context [?a <? ?b] =>
      first [ rewrite (proj2 (Z.ltb_lt a b)) by side
            | rewrite (proj2 (Z.ltb_ge a b)) by side ]
  | context [?a >? ?b] => rewrite (Z.gtb_ltb a b)
  | _ => progress cbn [negb orb andb]
  end.

Lemma find_fit_hit W asize s h :
  list_head s <> 0 ->
  load W (HDRP W (list_head s)) s = Some h ->
  asize <= size_of W h ->
  find_fit W asize s = Ok (list_head s) s.
Proof.
  intros Hn Hh Hle. unfold find_fit, heap_fuel. cbn [find_fit_loop].
  rewrite (proj2 (Z.eqb_neq _ _) Hn), (bind_GET_SIZE W _ _ _ _ Hh).
  now rewrite (proj2 (Z.leb_le _ _) Hle).
Qed.

(** [find_fit] when the head of the free list is large enough. *)
Ltac fit_hit :=
  lazymatch goal with
  | |- bind (find_fit ?W ?a) ?k ?s = _ =>
      erewrite (bind_Ok (find_fit W a) k s);
      [| eapply find_fit_hit; cbn [list_head];
         [ side | load_solve; reflexivity | vals; side ] ];
      cbn [list_head]
  end.

(** One step of the program on an explicit heap. *)
Ltac step :=
  lazymatch goal with
  | |- bind (bind _ _) _ _ = _ => rewrite bind_assoc
  | |- bind (ret _) _ _ = _ => rewrite bind_ret_l; cbv beta; vals
  | |- bind (PUT ?W ?p ?v) ?k (mkState ?m ?lo ?brk ?mx ?hl ?lh) = _ =>
      first [ norm_addr p
            | rewrite (bind_Ok (PUT W p v) k _ tt _
                 (PUT_mk W p v m lo brk mx hl lh ltac:(in_heap_side))) ]
  | |- PUT ?W ?p ?v (mkState ?m ?lo ?brk ?mx ?hl ?lh) = _ =>
      first [ norm_addr p
            | rewrite (PUT_mk W p v m lo brk mx hl lh ltac:(in_heap_side)) ]
  | |- bind (GET ?W ?p) ?k (mkState ?m ?lo ?brk ?mx ?hl ?lh) = _ =>
      first [ norm_addr p
            | let E := fresh "E" in
              eassert (E : load W p (mkState m lo brk mx hl lh) = Some _);
              [ rewrite (load_mk W p m lo brk mx hl lh) by in_heap_side;
                lookup_norm; reflexivity
              | rewrite (bind_GET W p k _ _ E); clear E; cbv beta; vals ] ]
  | |- bind (mem_sbrk ?W ?n) ?k (mkState ?m ?lo ?brk ?mx ?hl ?lh) = _ =>
      first [ norm_addr n
            | rewrite (bind_Ok (mem_sbrk W n) k _ _ _
                 (mem_sbrk_mk_ok W n m lo brk mx hl lh ltac:(side)))
            | rewrite (bind_Ok (mem_sbrk W n) k _ _ _
                 (mem_sbrk_mk_fail W n m lo brk mx hl lh ltac:(side))) ]
  | |- bind (insert_list _ _) _ _ = _ => unfold insert_list at 1; cbv beta zeta; vals
  | |- bind (remove_list _ _) _ _ = _ => unfold remove_list at 1; cbv beta zeta; vals
  | |- bind (place _ _ _) _ _ = _ => unfold place at 1; cbv beta zeta; vals
  | |- bind (coalesce _ _) _ _ = _ => unfold coalesce at 1; cbv beta zeta; vals
  | |- bind (extend_heap _ _) _ _ = _ => unfold extend_heap at 1; cbv beta zeta; vals
  | |- bind (mm_free _ _) _ _ = _ => unfold mm_free at 1; cbv beta zeta; vals
  | |- bind (mm_malloc _ _) _ _ = _ => unfold mm_malloc at 1; cbv beta zeta; vals
  | |- bind (malloc_adjusted _ _) _ _ = _ => unfold malloc_adjusted at 1; cbv beta zeta; vals
  | |- bind (mm_realloc _ _ _) _ _ = _ => unfold mm_realloc at 1; cbv beta zeta; vals
  | |- bind (find_fit _ _) _ _ = _ => fit_hit
  | |- bind (GET_SIZE _ _) _ _ = _ => unfold GET_SIZE at 1
  | |- bind (GET_ALLOC _ _) _ _ = _ => unfold GET_ALLOC at 1
  | |- bind (FTRP _ _) _ _ = _ => unfold FTRP at 1
  | |- bind (NEXT_BLKP _ _) _ _ = _ => unfold NEXT_BLKP at 1
  | |- bind (PREV_BLKP _ _) _ _ = _ => unfold PREV_BLKP at 1
  | |- bind (SET_NEXTP _ _ _) _ _ = _ => unfold SET_NEXTP at 1
  | |- bind (SET_PREVP _ _ _) _ _ = _ => unfold SET_PREVP at 1
  | |- SET_PREVP _ _ _ _ = _ => unfold SET_PREVP at 1
  | |- bind (GET_NEXTP _ _) _ _ = _ => unfold GET_NEXTP at 1
  | |- bind (GET_PREVP _ _) _ _ = _ => unfold GET_PREVP at 1
  | |- bind get_list_head _ _ = _ => rewrite bind_get_list_head_mk
  | |- bind get_heap_listp _ _ = _ => rewrite bind_get_heap_listp_mk
  | |- bind (put_list_head _) _ _ = _ => rewrite bind_put_list_head_mk
  | |- bind (put_heap_listp _) _ _ = _ => rewrite bind_put_heap_listp_mk
  | |- bind (if ?c then _ else _) _ _ = _ => cond c
  | |- (if ?c then _ else _) _ = _ => cond c
  end; cbv beta iota zeta.

Ltac run := vals; repeat step.

(** Two heaps written as the same stores at equal addresses. *)
Ltac heap_eq :=
  lazymatch goal with
  | |- @eq Z _ _ => first [ reflexivity | unfold DSIZE; lia ]
  | |- @eq (gmap Z Z) _ _ => first [ reflexivity | apply insert_eq; heap_eq ]
  | |- @eq state _ _ => first [ reflexivity | f_equal; heap_eq ]
  | |- Ok _ _ = Ok _ _ => first [ reflexivity | f_equal; heap_eq ]
  | |- _ => reflexivity
  end.

(** The heap [mm_init] builds on a provider that grants the memory. *)
Lemma mm_init_run W m lo brk mx hl lh :
  W = 4 \/ W = 8 ->
  0 <= lo <= brk -> brk mod W = 0 ->
  brk + 8 * W + 4096 <= mx -> mx < 2 ^ wbits W ->
  size_of W (default 0 (m !! (brk + 6 * W))) = 0 ->
  mm_init W (mkState m lo brk mx hl lh) =
  Ok 0 (mkState
          (<[brk + 8 * W := 0]>
           (<[brk + 3 * W := brk + 8 * W]>
            (<[brk + 9 * W := brk + 3 * W]>
             (<[brk + 7 * W + 4096 := 1]>
              (<[brk + 6 * W + 4096 := 4096]>
               (<[brk + 7 * W := 4096]>
                (<[brk + 4 * W := 0]>
                 (<[brk + 3 * W := 1]>
                  (<[brk + 2 * W := PACK (DSIZE W) 1]>
                   (<[brk + W := PACK (DSIZE W) 1]>
                    (<[brk := 0]> m)))))))))))
          lo (brk + 8 * W + 4096) mx brk (brk + 8 * W)).
Proof.
  intros HW Hlo Hal Hmx Hfit Hz.
  assert (Hz' : forall a, a = brk + 6 * W -> size_of W (default 0 (m !! a)) = 0).
  { intros a ->. exact Hz. }
  clear Hz.
  destruct HW; subst W; prep;
  (unfold mm_init, init_layout; run; unfold ret; heap_eq).
Qed.

Ltac linked_solve :=
  cbn [linked_to];
  repeat first
    [ reflexivity
    | match goal with
      | |- _ /\ _ => split
      | |- exists _, _ => eexists
      | |- load _ _ _ = _ => load_solve; reflexivity
      | |- _ <> _ => side
      | |- _ = _ => side
      end ].

Ltac fuel_solve :=
  unfold heap_fuel; cbn [length mem_brk mem_lo];
  match goal with
  | |- (_ < S (Z.to_nat ?q))%nat => assert (8 <= q) by side
  end; lia.

(** ** [mm_init] *)

(** X8.  On a provider that can grant eight words and one chunk, whose heap
    top [base] is word aligned, and where the word at [base + 6 * WSIZE]
    (never written by [mm_init], read by [coalesce] as the footer in front
    of the first block) has a zero size field, [mm_init] returns 0 and
    leaves: [heap_listp] at [base] itself; the prologue header and footer
    in the second and third word; one free block of [CHUNKSIZE] bytes with
    payload at [base + 8 * WSIZE]; the epilogue header in the last word of
    the heap; and a free list made of that block followed by the node
    [base + 3 * WSIZE] that [mm_init] placed on its first epilogue word. *)
Theorem mm_init_builds_heap W s :
  W = 4 \/ W = 8 ->
  0 <= mem_lo s <= mem_brk s -> mem_brk s mod W = 0 ->
  mem_brk s + 8 * W + CHUNKSIZE <= mem_max s -> mem_max s < 2 ^ wbits W ->
  size_of W (default 0 (mem s !! (mem_brk s + 6 * W))) = 0 ->
  exists s',
    mm_init W s = Ok 0 s' /\
    heap_listp s' = mem_brk s /\
    mem_lo s' = mem_lo s /\
    mem_brk s' = mem_brk s + 8 * W + CHUNKSIZE /\
    load W (mem_brk s + W) s' = Some (PACK (DSIZE W) 1) /\
    load W (mem_brk s + 2 * W) s' = Some (PACK (DSIZE W) 1) /\
    load W (mem_brk s + 7 * W) s' = Some (PACK CHUNKSIZE 0) /\
    load W (mem_brk s + 6 * W + CHUNKSIZE) s' = Some (PACK CHUNKSIZE 0) /\
    load W (mem_brk s + 7 * W + CHUNKSIZE) s' = Some (PACK 0 1) /\
    list_walk W (heap_fuel W s') (list_head s') s'
      = Ok [mem_brk s + 8 * W; mem_brk s + 3 * W] s'.
Proof.
  intros HW. destruct s as [m lo brk mx hl lh]. cbn [mem mem_lo mem_brk mem_max].
  intros Hlo Hal Hmx Hfit Hz. change CHUNKSIZE with 4096 in *.
  eexists. split; [now apply mm_init_run |].
  cbn [heap_listp mem_lo mem_brk list_head].
  destruct HW; subst W; prep;
  (conj_split; try reflexivity; try (load_solve; reflexivity);
   apply linked_list_walk; [linked_solve | fuel_solve]).
Qed.

Lemma mm_init_builds_heap_witness :
  (0 <= mem_lo heap0 <= mem_brk heap0 /\ mem_brk heap0 mod 8 = 0 /\
   mem_brk heap0 + 8 * 8 + CHUNKSIZE <= mem_max heap0 /\
   mem_max heap0 < 2 ^ wbits 8 /\
   size_of 8 (default 0 (mem heap0 !! (mem_brk heap0 + 6 * 8))) = 0) /\
  exists s',
    mm_init 8 heap0 = Ok 0 s' /\
    heap_listp s' = mem_brk heap0 /\
    mem_lo s' = mem_lo heap0 /\
    mem_brk s' = mem_brk heap0 + 8 * 8 + CHUNKSIZE /\
    load 8 (mem_brk heap0 + 8) s' = Some (PACK (DSIZE 8) 1) /\
    load 8 (mem_brk heap0 + 2 * 8) s' = Some (PACK (DSIZE 8) 1) /\
    load 8 (mem_brk heap0 + 7 * 8) s' = Some (PACK CHUNKSIZE 0) /\
    load 8 (mem_brk heap0 + 6 * 8 + CHUNKSIZE) s' = Some (PACK CHUNKSIZE 0) /\
    load 8 (mem_brk heap0 + 7 * 8 + CHUNKSIZE) s' = Some (PACK 0 1) /\
    list_walk 8 (heap_fuel 8 s') (list_head s') s'
      = Ok [mem_brk heap0 + 8 * 8; mem_brk heap0 + 3 * 8] s'.
Proof.
  assert (H1 : 0 <= mem_lo heap0 <= mem_brk heap0) by (split; eval_fact).
  assert (H2 : mem_brk heap0 mod 8 = 0) by eval_fact.
  assert (H3 : mem_brk heap0 + 8 * 8 + CHUNKSIZE <= mem_max heap0) by eval_fact.
  assert (H4 : mem_max heap0 < 2 ^ wbits 8) by eval_fact.
  assert (H5 : size_of 8 (default 0 (mem heap0 !! (mem_brk heap0 + 6 * 8))) = 0)
    by eval_fact.
  split; [exact (conj H1 (conj H2 (conj H3 (conj H4 H5)))) |].
  exact (mm_init_builds_heap 8 heap0 (or_intror eq_refl) H1 H2 H3 H4 H5).
Defined.

(** X9.  When the provider has less than eight words and one chunk left,
    [mm_init] returns -1.  If not even the eight words fit, the heap is
    untouched and [heap_listp] holds the provider's failure value
    [(void * )-1]; if only the chunk does not fit, the eight words stay
    allocated and [heap_listp] points at them. *)
Theorem mm_init_no_room W s :
  W = 4 \/ W = 8 ->
  0 <= mem_lo s <= mem_brk s -> mem_brk s mod W = 0 -> mem_max s < 2 ^ wbits W ->
  mem_max s < mem_brk s + 8 * W + CHUNKSIZE ->
  exists s',
    mm_init W s = Ok (-1) s' /\
    mem_brk s' = (if mem_brk s + 8 * W <=? mem_max s then mem_brk s + 8 * W else mem_brk s) /\
    heap_listp s' = (if mem_brk s + 8 * W <=? mem_max s then mem_brk s else wrap W (-1)).
Proof.
  intros HW. destruct s as [m lo brk mx hl lh]. cbn [mem mem_lo mem_brk mem_max].
  intros Hlo Hal Hfit Hmx. change CHUNKSIZE with 4096 in *.
  destruct (brk + 8 * W <=? mx) eqn:E; [apply Z.leb_le in E | apply Z.leb_gt in E].
  - destruct HW; subst W; prep;
    (eexists; split;
     [ unfold mm_init, init_layout; run; reflexivity
     | split; reflexivity ]).
  - destruct HW; subst W; prep;
    (eexists; split;
     [ unfold mm_init, init_layout; run; reflexivity
     | split; reflexivity ]).
Qed.

Lemma mm_init_no_room_witness :
  (0 <= mem_lo (fresh ∅ 4096 4260) <= mem_brk (fresh ∅ 4096 4260) /\
   mem_brk (fresh ∅ 4096 4260) mod 8 = 0 /\
   mem_max (fresh ∅ 4096 4260) < 2 ^ wbits 8 /\
   mem_max (fresh ∅ 4096 4260) < mem_brk (fresh ∅ 4096 4260) + 8 * 8 + CHUNKSIZE) /\
  exists s',
    mm_init 8 (fresh ∅ 4096 4260) = Ok (-1) s' /\
    mem_brk s' = (if mem_brk (fresh ∅ 4096 4260) + 8 * 8 <=? mem_max (fresh ∅ 4096 4260)
                  then mem_brk (fresh ∅ 4096 4260) + 8 * 8
                  else mem_brk (fresh ∅ 4096 4260)) /\
    heap_listp s' = (if mem_brk (fresh ∅ 4096 4260) + 8 * 8 <=? mem_max (fresh ∅ 4096 4260)
                     then mem_brk (fresh ∅ 4096 4260) else wrap 8 (-1)).
Proof.
  assert (H1 : 0 <= mem_lo (fresh ∅ 4096 4260) <= mem_brk (fresh ∅ 4096 4260))
    by (split; eval_fact).
  assert (H2 : mem_brk (fresh ∅ 4096 4260) mod 8 = 0) by eval_fact.
  assert (H3 : mem_max (fresh ∅ 4096 4260) < 2 ^ wbits 8) by eval_fact.
  assert (H4 : mem_max (fresh ∅ 4096 4260)
               < mem_brk (fresh ∅ 4096 4260) + 8 * 8 + CHUNKSIZE) by eval_fact.
  split; [exact (conj H1 (conj H2 (conj H3 H4))) |].
  exact (mm_init_no_room 8 (fresh ∅ 4096 4260) (or_intror eq_refl) H1 H2 H3 H4).
Defined.

(** ** The first calls after [mm_init] *)

(** X10.  The first request after [mm_init], for at most a chunk less a
    double word, is served from the front of the initial chunk without
    extending the heap: [mm_malloc] returns [base + 8 * WSIZE].  When the
    chunk exceeds the adjusted size by at least two double words it is
    split, the block gets the adjusted size and the remainder becomes the
    head of the free list; otherwise the block keeps the whole chunk and
    only the node of [mm_init] stays on the list. *)
Theorem first_malloc_carves_front W s size :
  W = 4 \/ W = 8 ->
  0 <= mem_lo s <= mem_brk s -> mem_brk s mod W = 0 ->
  mem_brk s + 8 * W + CHUNKSIZE <= mem_max s -> mem_max s < 2 ^ wbits W ->
  size_of W (default 0 (mem s !! (mem_brk s + 6 * W))) = 0 ->
  0 < size <= CHUNKSIZE - DSIZE W ->
  let asize := adjust_size W size in
  let split := 2 * DSIZE W <=? CHUNKSIZE - asize in
  let bsize := if split then asize else CHUNKSIZE in
  exists s',
    session W [Malloc size] s = Ok [mem_brk s + 8 * W] s' /\
    mem_brk s' = mem_brk s + 8 * W + CHUNKSIZE /\
    load W (mem_brk s + 7 * W) s' = Some (PACK bsize 1) /\
    load W (mem_brk s + 6 * W + bsize) s' = Some (PACK bsize 1) /\
    (split = true ->
     load W (mem_brk s + 7 * W + asize) s' = Some (PACK (CHUNKSIZE - asize) 0)) /\
    list_walk W (heap_fuel W s') (list_head s') s'
      = Ok (if split then [mem_brk s + 8 * W + asize; mem_brk s + 3 * W]
            else [mem_brk s + 3 * W]) s'.
Proof.
  intros HW Hlo Hal Hmx Hfit Hz Hs asize split bsize.
  destruct s as [m lo brk mx hl lh]. cbn [mem mem_lo mem_brk mem_max] in *.
  change CHUNKSIZE with 4096 in *.
  assert (Ha : is_size W asize /\ 2 * DSIZE W <= asize <= 4096).
  { subst asize. unfold adjust_size, is_size.
    destruct (size <=? DSIZE W) eqn:E; [apply Z.leb_le in E | apply Z.leb_gt in E];
      w_lia HW. }
  destruct Ha as [Ha Hb].
  assert (Hr : is_size W (4096 - asize)).
  { destruct Ha as [? ?]. unfold is_size. w_lia HW. }
  assert (Hz' : forall a, a = brk + 6 * W -> size_of W (default 0 (m !! a)) = 0).
  { intros a ->. exact Hz. }
  pose proof (mm_init_run W m lo brk mx hl lh HW Hlo Hal Hmx Hfit Hz) as Ei.
  clear Hz. subst bsize.
  assert (Hnz : (size =? 0) = false) by (apply Z.eqb_neq; lia).
  unfold session. rewrite (bind_Ok _ _ _ _ _ Ei). cbn [Z.eqb run_calls].
  unfold mm_malloc. rewrite Hnz. clear Hnz. fold asize. cbv zeta. unfold malloc_adjusted.
  clearbody asize. clear Ei.
  destruct split eqn:Esp; subst split;
    [apply Z.leb_le in Esp | apply Z.leb_gt in Esp];
  (destruct HW; subst W; prep;
   (eexists; split;
    [ run; reflexivity
    | cbn [mem_brk list_head]; conj_split;
      [ reflexivity
      | load_solve; reflexivity
      | load_solve; reflexivity
      | first [ let Hd := fresh in intros Hd; discriminate Hd
              | intros _; load_solve; reflexivity ]
      | apply linked_list_walk; [linked_solve | fuel_solve] ] ])).
Qed.

Lemma first_malloc_carves_front_witness :
  (0 <= mem_lo heap0 <= mem_brk heap0 /\ mem_brk heap0 mod 8 = 0 /\
   mem_brk heap0 + 8 * 8 + CHUNKSIZE <= mem_max heap0 /\
   mem_max heap0 < 2 ^ wbits 8 /\
   size_of 8 (default 0 (mem heap0 !! (mem_brk heap0 + 6 * 8))) = 0 /\
   0 < 100 <= CHUNKSIZE - DSIZE 8) /\
  let asize := adjust_size 8 100 in
  let split := 2 * DSIZE 8 <=? CHUNKSIZE - asize in
  let bsize := if split then asize else CHUNKSIZE in
  exists s',
    session 8 [Malloc 100] heap0 = Ok [mem_brk heap0 + 8 * 8] s' /\
    mem_brk s' = mem_brk heap0 + 8 * 8 + CHUNKSIZE /\
    load 8 (mem_brk heap0 + 7 * 8) s' = Some (PACK bsize 1) /\
    load 8 (mem_brk heap0 + 6 * 8 + bsize) s' = Some (PACK bsize 1) /\
    (split = true ->
     load 8 (mem_brk heap0 + 7 * 8 + asize) s' = Some (PACK (CHUNKSIZE - asize) 0)) /\
    list_walk 8 (heap_fuel 8 s') (list_head s') s'
      = Ok (if split then [mem_brk heap0 + 8 * 8 + asize; mem_brk heap0 + 3 * 8]
            else [mem_brk heap0 + 3 * 8]) s'.
Proof.
  assert (H1 : 0 <= mem_lo heap0 <= mem_brk heap0) by (split; eval_fact).
  assert (H2 : mem_brk heap0 mod 8 = 0) by eval_fact.
  assert (H3 : mem_brk heap0 + 8 * 8 + CHUNKSIZE <= mem_max heap0) by eval_fact.
  assert (H4 : mem_max heap0 < 2 ^ wbits 8) by eval_fact.
  assert (H5 : size_of 8 (default 0 (mem heap0 !! (mem_brk heap0 + 6 * 8))) = 0)
    by eval_fact.
  assert (H6 : 0 < 100 <= CHUNKSIZE - DSIZE 8) by (split; eval_fact).
  split; [exact (conj H1 (conj H2 (conj H3 (conj H4 (conj H5 H6))))) |].
  exact (first_malloc_carves_front 8 heap0 100 (or_intror eq_refl) H1 H2 H3 H4 H5 H6).
Defined.



(** X12.  [mm_realloc] grows a block in place by taking its free successor
    whole.  After a first request that left a free remainder, a request to
    resize the block beyond its size, to at most a chunk, returns the same
    pointer; the block then owns the entire chunk, however little was
    asked for, and no free block is left: the free list holds the node of
    [mm_init] only. *)
Theorem realloc_takes_whole_successor W s size size' :
  W = 4 \/ W = 8 ->
  0 <= mem_lo s <= mem_brk s -> mem_brk s mod W = 0 ->
  mem_brk s + 8 * W + CHUNKSIZE <= mem_max s -> mem_max s < 2 ^ wbits W ->
  size_of W (default 0 (mem s !! (mem_brk s + 6 * W))) = 0 ->
  0 < size <= CHUNKSIZE - DSIZE W ->
  2 * DSIZE W <= CHUNKSIZE - adjust_size W size ->
  adjust_size W size < size' + 2 * W <= CHUNKSIZE ->
  exists s',
    session W [Malloc size; Realloc (mem_brk s + 8 * W) size'] s
      = Ok [mem_brk s + 8 * W; mem_brk s + 8 * W] s' /\
    load W (mem_brk s + 7 * W) s' = Some (PACK CHUNKSIZE 1) /\
    load W (mem_brk s + 6 * W + CHUNKSIZE) s' = Some (PACK CHUNKSIZE 1) /\
    list_walk W (heap_fuel W s') (list_head s') s' = Ok [mem_brk s + 3 * W] s'.
Proof.
  intros HW Hlo Hal Hmx Hfit Hz Hs Hsp Hs'.
  destruct s as [m lo brk mx hl lh]. cbn [mem mem_lo mem_brk mem_max] in *.
  change CHUNKSIZE with 4096 in *.
  set (asize := adjust_size W size) in *.
  assert (Ha : is_size W asize /\ 2 * DSIZE W <= asize).
  { subst asize. unfold adjust_size, is_size.
    destruct (size <=? DSIZE W) eqn:E; [apply Z.leb_le in E | apply Z.leb_gt in E];
      w_lia HW. }
  destruct Ha as [Ha Hb].
  assert (Hr : is_size W (4096 - asize)).
  { destruct Ha as [? ?]. unfold is_size. w_lia HW. }
  assert (Hz' : forall a, a = brk + 6 * W -> size_of W (default 0 (m !! a)) = 0).
  { intros a ->. exact Hz. }
  pose proof (mm_init_run W m lo brk mx hl lh HW Hlo Hal Hmx Hfit Hz) as Ei.
  clear Hz.
  assert (Hnz : (size =? 0) = false) by (apply Z.eqb_neq; lia).
  assert (Hti : to_int size' = size').
  { apply to_int_small. destruct HW; subst W; unfold DSIZE in *; lia. }
  unfold session. rewrite (bind_Ok _ _ _ _ _ Ei). cbn [Z.eqb run_calls].
  unfold mm_malloc at 1. rewrite Hnz. clear Hnz. fold asize. cbv zeta.
  unfold mm_realloc. rewrite Hti. clear Hti.
  clearbody asize. clear Ei.
  destruct HW; subst W; prep;
  (eexists; split;
   [ run; reflexivity
   | cbn [mem_brk list_head]; conj_split;
     [ load_solve; reflexivity
     | load_solve; reflexivity
     | apply linked_list_walk; [linked_solve | fuel_solve] ] ]).
Qed.

Lemma realloc_takes_whole_successor_witness :
  (0 <= mem_lo heap0 <= mem_brk heap0 /\ mem_brk heap0 mod 8 = 0 /\
   mem_brk heap0 + 8 * 8 + CHUNKSIZE <= mem_max heap0 /\
   mem_max heap0 < 2 ^ wbits 8 /\
   size_of 8 (default 0 (mem heap0 !! (mem_brk heap0 + 6 * 8))) = 0 /\
   0 < 100 <= CHUNKSIZE - DSIZE 8 /\
   2 * DSIZE 8 <= CHUNKSIZE - adjust_size 8 100 /\
   adjust_size 8 100 < 200 + 2 * 8 <= CHUNKSIZE) /\
  exists s',
    session 8 [Malloc 100; Realloc (mem_brk heap0 + 8 * 8) 200] heap0
      = Ok [mem_brk heap0 + 8 * 8; mem_brk heap0 + 8 * 8] s' /\
    load 8 (mem_brk heap0 + 7 * 8) s' = Some (PACK CHUNKSIZE 1) /\
    load 8 (mem_brk heap0 + 6 * 8 + CHUNKSIZE) s' = Some (PACK CHUNKSIZE 1) /\
    list_walk 8 (heap_fuel 8 s') (list_head s') s' = Ok [mem_brk heap0 + 3 * 8] s'.
Proof.
  assert (H1 : 0 <= mem_lo heap0 <= mem_brk heap0) by (split; eval_fact).
  assert (H2 : mem_brk heap0 mod 8 = 0) by eval_fact.
  assert (H3 : mem_brk heap0 + 8 * 8 + CHUNKSIZE <= mem_max heap0) by eval_fact.
  assert (H4 : mem_max heap0 < 2 ^ wbits 8) by eval_fact.
  assert (H5 : size_of 8 (default 0 (mem heap0 !! (mem_brk heap0 + 6 * 8))) = 0)
    by eval_fact.
  assert (H6 : 0 < 100 <= CHUNKSIZE - DSIZE 8) by (split; eval_fact).
  assert (H7 : 2 * DSIZE 8 <= CHUNKSIZE - adjust_size 8 100) by eval_fact.
  assert (H8 : adjust_size 8 100 < 200 + 2 * 8 <= CHUNKSIZE) by (split; eval_fact).
  split; [exact (conj H1 (conj H2 (conj H3 (conj H4 (conj H5 (conj H6 (conj H7 H8))))))) |].
  exact (realloc_takes_whole_successor 8 heap0 100 200 (or_intror eq_refl)
           H1 H2 H3 H4 H5 H6 H7 H8).
Defined.

(** X13.  Two requests that fit the initial chunk together get adjacent
    blocks: the second pointer is the first plus the adjusted size of the
    first request, which covers the first payload, a header and a footer,
    so the two payloads do not overlap.  The first block keeps its header;
    the second is split from the remainder when at least two double words
    would be left, and takes the remainder whole otherwise. *)
Theorem second_malloc_follows_first W s size1 size2 :
  W = 4 \/ W = 8 ->
  0 <= mem_lo s <= mem_brk s -> mem_brk s mod W = 0 ->
  mem_brk s + 8 * W + CHUNKSIZE <= mem_max s -> mem_max s < 2 ^ wbits W ->
  size_of W (default 0 (mem s !! (mem_brk s + 6 * W))) = 0 ->
  0 < size1 <= CHUNKSIZE -> 0 < size2 <= CHUNKSIZE ->
  adjust_size W size1 + adjust_size W size2 <= CHUNKSIZE ->
  let asize1 := adjust_size W size1 in
  let asize2 := adjust_size W size2 in
  let rest := CHUNKSIZE - asize1 - asize2 in
  let bsize2 := if 2 * DSIZE W <=? rest then asize2 else CHUNKSIZE - asize1 in
  exists s',
    session W [Malloc size1; Malloc size2] s
      = Ok [mem_brk s + 8 * W; mem_brk s + 8 * W + asize1] s' /\
    size1 + DSIZE W <= asize1 /\
    load W (mem_brk s + 7 * W) s' = Some (PACK asize1 1) /\
    load W (mem_brk s + 7 * W + asize1) s' = Some (PACK bsize2 1) /\
    list_walk W (heap_fuel W s') (list_head s') s'
      = Ok (if 2 * DSIZE W <=? rest
            then [mem_brk s + 8 * W + asize1 + asize2; mem_brk s + 3 * W]
            else [mem_brk s + 3 * W]) s'.
Proof.
  intros HW Hlo Hal Hmx Hfit Hz Hs1 Hs2 Hsum asize1 asize2 rest bsize2.
  destruct s as [m lo brk mx hl lh]. cbn [mem mem_lo mem_brk mem_max] in *.
  change CHUNKSIZE with 4096 in *.
  assert (Ha : forall size, 0 < size <= 4096 ->
             is_size W (adjust_size W size) /\ 2 * DSIZE W <= adjust_size W size /\
             size + DSIZE W <= adjust_size W size).
  { intros size Hs. unfold adjust_size, is_size.
    destruct (size <=? DSIZE W) eqn:E; [apply Z.leb_le in E | apply Z.leb_gt in E];
      w_lia HW. }
  destruct (Ha size1 Hs1) as (Ha1 & Hb1 & Hc1).
  destruct (Ha size2 Hs2) as (Ha2 & Hb2 & Hc2). clear Ha.
  fold asize1 in Ha1, Hb1, Hc1, Hsum. fold asize2 in Ha2, Hb2, Hc2, Hsum.
  assert (Hr1 : is_size W (4096 - asize1)).
  { destruct Ha1 as [? ?]. unfold is_size. w_lia HW. }
  assert (Hr2 : is_size W (4096 - asize1 - asize2)).
  { destruct Ha1 as [? ?], Ha2 as [? ?]. unfold is_size. w_lia HW. }
  assert (Hz' : forall a, a = brk + 6 * W -> size_of W (default 0 (m !! a)) = 0).
  { intros a ->. exact Hz. }
  pose proof (mm_init_run W m lo brk mx hl lh HW Hlo Hal Hmx Hfit Hz) as Ei.
  clear Hz.
  assert (Hnz1 : (size1 =? 0) = false) by (apply Z.eqb_neq; lia).
  assert (Hnz2 : (size2 =? 0) = false) by (apply Z.eqb_neq; lia).
  unfold session. rewrite (bind_Ok _ _ _ _ _ Ei). cbn [Z.eqb run_calls].
  unfold mm_malloc. rewrite Hnz1, Hnz2. clear Hnz1 Hnz2.
  fold asize1. fold asize2. cbv zeta.
  subst bsize2 rest.
  clearbody asize1 asize2. clear Ei.
  destruct (2 * DSIZE W <=? 4096 - asize1 - asize2) eqn:Esp;
    [apply Z.leb_le in Esp | apply Z.leb_gt in Esp];
  (destruct HW; subst W; prep;
   (eexists; split;
    [ run; reflexivity
    | cbn [mem_brk list_head]; conj_split;
      [ assumption
      | load_solve; reflexivity
      | load_solve; reflexivity
      | apply linked_list_walk; [linked_solve | fuel_solve] ] ])).
Qed.

Lemma second_malloc_follows_first_witness :
  (0 <= mem_lo heap0 <= mem_brk heap0 /\ mem_brk heap0 mod 8 = 0 /\
   mem_brk heap0 + 8 * 8 + CHUNKSIZE <= mem_max heap0 /\
   mem_max heap0 < 2 ^ wbits 8 /\
   size_of 8 (default 0 (mem heap0 !! (mem_brk heap0 + 6 * 8))) = 0 /\
   0 < 100 <= CHUNKSIZE /\ 0 < 200 <= CHUNKSIZE /\
   adjust_size 8 100 + adjust_size 8 200 <= CHUNKSIZE) /\
  let asize1 := adjust_size 8 100 in
  let asize2 := adjust_size 8 200 in
  let rest := CHUNKSIZE - asize1 - asize2 in
  let bsize2 := if 2 * DSIZE 8 <=? rest then asize2 else CHUNKSIZE - asize1 in
  exists s',
    session 8 [Malloc 100; Malloc 200] heap0
      = Ok [mem_brk heap0 + 8 * 8; mem_brk heap0 + 8 * 8 + asize1] s' /\
    100 + DSIZE 8 <= asize1 /\
    load 8 (mem_brk heap0 + 7 * 8) s' = Some (PACK asize1 1) /\
    load 8 (mem_brk heap0 + 7 * 8 + asize1) s' = Some (PACK bsize2 1) /\
    list_walk 8 (heap_fuel 8 s') (list_head s') s'
      = Ok (if 2 * DSIZE 8 <=? rest
            then [mem_brk heap0 + 8 * 8 + asize1 + asize2; mem_brk heap0 + 3 * 8]
            else [mem_brk heap0 + 3 * 8]) s'.
Proof.
  assert (H1 : 0 <= mem_lo heap0 <= mem_brk heap0) by (split; eval_fact).
  assert (H2 : mem_brk heap0 mod 8 = 0) by eval_fact.
  assert (H3 : mem_brk heap0 + 8 * 8 + CHUNKSIZE <= mem_max heap0) by eval_fact.
  assert (H4 : mem_max heap0 < 2 ^ wbits 8) by eval_fact.
  assert (H5 : size_of 8 (default 0 (mem heap0 !! (mem_brk heap0 + 6 * 8))) = 0)
    by eval_fact.
  assert (H6 : 0 < 100 <= CHUNKSIZE) by (split; eval_fact).
  assert (H7 : 0 < 200 <= CHUNKSIZE) by (split; eval_fact).
  assert (H8 : adjust_size 8 100 + adjust_size 8 200 <= CHUNKSIZE) by eval_fact.
  split; [exact (conj H1 (conj H2 (conj H3 (conj H4 (conj H5 (conj H6 (conj H7 H8))))))) |].
  exact (second_malloc_follows_first 8 heap0 100 200 (or_intror eq_refl)
           H1 H2 H3 H4 H5 H6 H7 H8).
Defined.

Lemma find_fit_miss W asize s l :
  list_walk W (heap_fuel W s) (list_head s) s = Ok l s ->
  (forall x, In x l ->
     exists h, load W (HDRP W x) s = Some h /\ size_of W h < asize) ->
  find_fit W asize s = Ok 0 s.
Proof.
  intros E Hh.
  destruct (find_fit_loop_first_fit W asize _ _ _ _ E) as (r & Er & Hr).
  { intros x Hx. destruct (Hh x Hx) as (h & Hl & _). eauto. }
  assert (r = 0) as ->.
  { destruct Hr as [[-> _] | (l1 & l2 & h & -> & Hl & Hge & _)]; [reflexivity |].
    destruct (Hh r) as (h' & Hl' & Hlt); [apply in_elt |].
    rewrite Hl in Hl'. inversion Hl'. subst h'. lia. }
  exact Er.
Qed.

(** X14.  A first request larger than a chunk less a double word finds no
    fit: the heap is extended by the adjusted size, the new memory is
    merged with the free chunk in front of it, and the block is placed at
    the front of the merged block.  [mm_malloc] returns [base + 8 * WSIZE];
    a free remainder of [CHUNKSIZE] bytes follows the block and heads the
    free list, and the epilogue header moves to the last word of the grown
    heap. *)
Theorem large_malloc_extends_and_merges W s size :
  W = 4 \/ W = 8 ->
  0 <= mem_lo s <= mem_brk s -> mem_brk s mod W = 0 ->
  mem_max s < 2 ^ wbits W ->
  size_of W (default 0 (mem s !! (mem_brk s + 6 * W))) = 0 ->
  CHUNKSIZE - DSIZE W < size ->
  mem_brk s + 8 * W + CHUNKSIZE + adjust_size W size <= mem_max s ->
  size + 2 * DSIZE W <= mem_max s ->
  let asize := adjust_size W size in
  exists s',
    session W [Malloc size] s = Ok [mem_brk s + 8 * W] s' /\
    mem_brk s' = mem_brk s + 8 * W + CHUNKSIZE + asize /\
    load W (mem_brk s + 7 * W) s' = Some (PACK asize 1) /\
    load W (mem_brk s + 7 * W + asize) s' = Some (PACK CHUNKSIZE 0) /\
    load W (mem_brk s' - W) s' = Some (PACK 0 1) /\
    list_walk W (heap_fuel W s') (list_head s') s'
      = Ok [mem_brk s + 8 * W + asize; mem_brk s + 3 * W] s'.
Proof.
  intros HW Hlo Hal Hfit Hz Hs Hmx Hsz asize.
  destruct s as [m lo brk mx hl lh]. cbn [mem mem_lo mem_brk mem_max] in *.
  change CHUNKSIZE with 4096 in *.
  assert (Ha : is_size W asize /\ 4096 < asize /\ size + DSIZE W <= asize).
  { subst asize. unfold adjust_size, is_size.
    destruct (size <=? DSIZE W) eqn:E; [apply Z.leb_le in E | apply Z.leb_gt in E];
      w_lia HW. }
  destruct Ha as (Ha & Hb & Hc).
  assert (Hr : is_size W (asize + 4096)).
  { destruct Ha as [? ?]. unfold is_size. fold asize in Hmx. w_lia HW. }
  assert (Hz' : forall a, a = brk + 6 * W -> size_of W (default 0 (m !! a)) = 0).
  { intros a ->. exact Hz. }
  assert (Hmx0 : brk + 8 * W + 4096 <= mx).
  { fold asize in Hmx. destruct Ha as [[? ?] ?]. lia. }
  pose proof (mm_init_run W m lo brk mx hl lh HW Hlo Hal Hmx0 Hfit Hz) as Ei.
  clear Hz.
  assert (Hnz : (size =? 0) = false) by (apply Z.eqb_neq; destruct HW; subst W; unfold DSIZE in *; lia).
  assert (Hext : extend_bytes W (MAX asize CHUNKSIZE / W) = asize).
  { destruct (extend_bytes_of_calls W size HW) as (_ & He & _). fold asize in He.
    rewrite He. unfold MAX. change CHUNKSIZE with 4096.
    destruct (asize >? 4096) eqn:E; [reflexivity |].
    rewrite Z.gtb_ltb in E. apply Z.ltb_ge in E. lia. }
  unfold session. rewrite (bind_Ok _ _ _ _ _ Ei). cbn [Z.eqb run_calls].
  unfold mm_malloc. rewrite Hnz. clear Hnz. fold asize. cbv zeta. unfold malloc_adjusted.
  unfold extend_heap. rewrite Hext. cbv zeta. fold asize in Hmx.
  clearbody asize. clear Ei Hext.
  destruct HW; subst W; prep;
  (eexists; split;
   [ rewrite bind_assoc;
     erewrite (bind_Ok (find_fit _ _));
     [| lazymatch goal with
        | |- find_fit ?W _ (mkState _ _ _ _ _ ?lh) = _ =>
            eapply (find_fit_miss W _ _ [lh; lh - 5 * W])
        end;
        [ apply linked_list_walk; [linked_solve | fuel_solve]
        | let y := fresh in
          intros y [<- | [<- | []]]; eexists;
          (split; [load_solve; reflexivity | vals; side]) ] ];
     run; reflexivity
   | cbn [mem_brk list_head]; conj_split;
     [ side
     | load_solve; reflexivity
     | load_solve; reflexivity
     | load_solve; reflexivity
     | apply linked_list_walk; [linked_solve | fuel_solve] ] ]).
Qed.

Lemma large_malloc_extends_and_merges_witness :
  (0 <= mem_lo heap0 <= mem_brk heap0 /\ mem_brk heap0 mod 8 = 0 /\
   mem_max heap0 < 2 ^ wbits 8 /\
   size_of 8 (default 0 (mem heap0 !! (mem_brk heap0 + 6 * 8))) = 0 /\
   CHUNKSIZE - DSIZE 8 < 5000 /\
   mem_brk heap0 + 8 * 8 + CHUNKSIZE + adjust_size 8 5000 <= mem_max heap0 /\
   5000 + 2 * DSIZE 8 <= mem_max heap0) /\
  let asize := adjust_size 8 5000 in
  exists s',
    session 8 [Malloc 5000] heap0 = Ok [mem_brk heap0 + 8 * 8] s' /\
    mem_brk s' = mem_brk heap0 + 8 * 8 + CHUNKSIZE + asize /\
    load 8 (mem_brk heap0 + 7 * 8) s' = Some (PACK asize 1) /\
    load 8 (mem_brk heap0 + 7 * 8 + asize) s' = Some (PACK CHUNKSIZE 0) /\
    load 8 (mem_brk s' - 8) s' = Some (PACK 0 1) /\
    list_walk 8 (heap_fuel 8 s') (list_head s') s'
      = Ok [mem_brk heap0 + 8 * 8 + asize; mem_brk heap0 + 3 * 8] s'.
Proof.
  assert (H1 : 0 <= mem_lo heap0 <= mem_brk heap0) by (split; eval_fact).
  assert (H2 : mem_brk heap0 mod 8 = 0) by eval_fact.
  assert (H3 : mem_max heap0 < 2 ^ wbits 8) by eval_fact.
  assert (H4 : size_of 8 (default 0 (mem heap0 !! (mem_brk heap0 + 6 * 8))) = 0)
    by eval_fact.
  assert (H5 : CHUNKSIZE - DSIZE 8 < 5000) by eval_fact.
  assert (H6 : mem_brk heap0 + 8 * 8 + CHUNKSIZE + adjust_size 8 5000 <= mem_max heap0)
    by eval_fact.
  assert (H7 : 5000 + 2 * DSIZE 8 <= mem_max heap0) by eval_fact.
  split; [exact (conj H1 (conj H2 (conj H3 (conj H4 (conj H5 (conj H6 H7)))))) |].
  exact (large_malloc_extends_and_merges 8 heap0 5000 (or_intror eq_refl)
           H1 H2 H3 H4 H5 H6 H7).
Defined.

(** X15.  Three blocks freed in the order first, third, second merge back
    into the initial chunk: the third absorbs the remainder behind it, and
    the second, lying between two free blocks, is merged with both.  The
    heap ends as [mm_init] built it, with one free block of [CHUNKSIZE]
    bytes and the free list made of that block and the node of
    [mm_init]. *)
Theorem three_way_merge W s size1 size2 size3 :
  W = 4 \/ W = 8 ->
  0 <= mem_lo s <= mem_brk s -> mem_brk s mod W = 0 ->
  mem_brk s + 8 * W + CHUNKSIZE <= mem_max s -> mem_max s < 2 ^ wbits W ->
  size_of W (default 0 (mem s !! (mem_brk s + 6 * W))) = 0 ->
  0 < size1 <= CHUNKSIZE -> 0 < size2 <= CHUNKSIZE -> 0 < size3 <= CHUNKSIZE ->
  adjust_size W size1 + adjust_size W size2 + adjust_size W size3 + 2 * DSIZE W
    <= CHUNKSIZE ->
  let p1 := mem_brk s + 8 * W in
  let p2 := p1 + adjust_size W size1 in
  let p3 := p2 + adjust_size W size2 in
  exists s',
    session W [Malloc size1; Malloc size2; Malloc size3; Free p1; Free p3; Free p2] s
      = Ok [p1; p2; p3; 0; 0; 0] s' /\
    load W (mem_brk s + 7 * W) s' = Some (PACK CHUNKSIZE 0) /\
    load W (mem_brk s + 6 * W + CHUNKSIZE) s' = Some (PACK CHUNKSIZE 0) /\
    load W (mem_brk s + 7 * W + CHUNKSIZE) s' = Some (PACK 0 1) /\
    list_walk W (heap_fuel W s') (list_head s') s'
      = Ok [mem_brk s + 8 * W; mem_brk s + 3 * W] s'.
Proof.
  intros HW Hlo Hal Hmx Hfit Hz Hs1 Hs2 Hs3 Hsum p1 p2 p3.
  destruct s as [m lo brk mx hl lh]. cbn [mem mem_lo mem_brk mem_max] in *.
  change CHUNKSIZE with 4096 in *.
  set (a1 := adjust_size W size1) in *. set (a2 := adjust_size W size2) in *.
  set (a3 := adjust_size W size3) in *.
  assert (Ha : forall size, 0 < size <= 4096 ->
             is_size W (adjust_size W size) /\ 2 * DSIZE W <= adjust_size W size).
  { intros size Hs. unfold adjust_size, is_size.
    destruct (size <=? DSIZE W) eqn:E; [apply Z.leb_le in E | apply Z.leb_gt in E];
      w_lia HW. }
  destruct (Ha size1 Hs1) as (Ha1 & Hb1).
  destruct (Ha size2 Hs2) as (Ha2 & Hb2).
  destruct (Ha size3 Hs3) as (Ha3 & Hb3). clear Ha.
  fold a1 in Ha1, Hb1. fold a2 in Ha2, Hb2. fold a3 in Ha3, Hb3.
  assert (Hr1 : is_size W (4096 - a1)).
  { destruct Ha1 as [? ?]. unfold is_size. w_lia HW. }
  assert (Hr2 : is_size W (4096 - a1 - a2)).
  { destruct Ha1 as [? ?], Ha2 as [? ?]. unfold is_size. w_lia HW. }
  assert (Hr3 : is_size W (4096 - a1 - a2 - a3)).
  { destruct Ha1 as [? ?], Ha2 as [? ?], Ha3 as [? ?]. unfold is_size. w_lia HW. }
  assert (Hz' : forall a, a = brk + 6 * W -> size_of W (default 0 (m !! a)) = 0).
  { intros a ->. exact Hz. }
  pose proof (mm_init_run W m lo brk mx hl lh HW Hlo Hal Hmx Hfit Hz) as Ei.
  clear Hz.
  assert (Hnz1 : (size1 =? 0) = false) by (apply Z.eqb_neq; lia).
  assert (Hnz2 : (size2 =? 0) = false) by (apply Z.eqb_neq; lia).
  assert (Hnz3 : (size3 =? 0) = false) by (apply Z.eqb_neq; lia).
  unfold session. rewrite (bind_Ok _ _ _ _ _ Ei). cbn [Z.eqb run_calls].
  unfold mm_malloc. rewrite Hnz1, Hnz2, Hnz3. clear Hnz1 Hnz2 Hnz3.
  fold a1. fold a2. fold a3. cbv zeta. subst p1 p2 p3.
  clearbody a1 a2 a3. clear Ei.
  destruct HW; subst W; prep;
  (eexists; split;
   [ run; reflexivity
   | cbn [mem_brk list_head]; conj_split;
     [ load_solve; reflexivity
     | load_solve; reflexivity
     | load_solve; reflexivity
     | apply linked_list_walk; [linked_solve | fuel_solve] ] ]).
Qed.

Lemma three_way_merge_witness :
  (0 <= mem_lo heap0 <= mem_brk heap0 /\ mem_brk heap0 mod 8 = 0 /\
   mem_brk heap0 + 8 * 8 + CHUNKSIZE <= mem_max heap0 /\
   mem_max heap0 < 2 ^ wbits 8 /\
   size_of 8 (default 0 (mem heap0 !! (mem_brk heap0 + 6 * 8))) = 0 /\
   0 < 100 <= CHUNKSIZE /\ 0 < 200 <= CHUNKSIZE /\ 0 < 300 <= CHUNKSIZE /\
   adjust_size 8 100 + adjust_size 8 200 + adjust_size 8 300 + 2 * DSIZE 8
     <= CHUNKSIZE) /\
  let p1 := mem_brk heap0 + 8 * 8 in
  let p2 := p1 + adjust_size 8 100 in
  let p3 := p2 + adjust_size 8 200 in
  exists s',
    session 8 [Malloc 100; Malloc 200; Malloc 300; Free p1; Free p3; Free p2] heap0
      = Ok [p1; p2; p3; 0; 0; 0] s' /\
    load 8 (mem_brk heap0 + 7 * 8) s' = Some (PACK CHUNKSIZE 0) /\
    load 8 (mem_brk heap0 + 6 * 8 + CHUNKSIZE) s' = Some (PACK CHUNKSIZE 0) /\
    load 8 (mem_brk heap0 + 7 * 8 + CHUNKSIZE) s' = Some (PACK 0 1) /\
    list_walk 8 (heap_fuel 8 s') (list_head s') s'
      = Ok [mem_brk heap0 + 8 * 8; mem_brk heap0 + 3 * 8] s'.
Proof.
  assert (H1 : 0 <= mem_lo heap0 <= mem_brk heap0) by (split; eval_fact).
  assert (H2 : mem_brk heap0 mod 8 = 0) by eval_fact.
  assert (H3 : mem_brk heap0 + 8 * 8 + CHUNKSIZE <= mem_max heap0) by eval_fact.
  assert (H4 : mem_max heap0 < 2 ^ wbits 8) by eval_fact.
  assert (H5 : size_of 8 (default 0 (mem heap0 !! (mem_brk heap0 + 6 * 8))) = 0)
    by eval_fact.
  assert (H6 : 0 < 100 <= CHUNKSIZE) by (split; eval_fact).
  assert (H7 : 0 < 200 <= CHUNKSIZE) by (split; eval_fact).
  assert (H8 : 0 < 300 <= CHUNKSIZE) by (split; eval_fact).
  assert (H9 : adjust_size 8 100 + adjust_size 8 200 + adjust_size 8 300 + 2 * DSIZE 8
               <= CHUNKSIZE) by eval_fact.
  split;
    [exact (conj H1 (conj H2 (conj H3 (conj H4 (conj H5 (conj H6 (conj H7 (conj H8 H9)))))))) |].
  exact (three_way_merge 8 heap0 100 200 300 (or_intror eq_refl)
           H1 H2 H3 H4 H5 H6 H7 H8 H9).
Defined.

(** ** Freeing a block twice *)

Lemma find_fit_loop_self_loop W asize bp s h :
  bp <> 0 ->
  load W (HDRP W bp) s = Some h -> size_of W h < asize ->
  load W (wrap W (bp + W)) s = Some bp ->
  forall fuel, find_fit_loop W fuel asize bp s = OutOfFuel.
Proof.
  intros Hn Hh Hlt Hnx fuel. induction fuel as [| n IH]; [reflexivity |].
  cbn [find_fit_loop]. rewrite (proj2 (Z.eqb_neq _ _) Hn).
  rewrite (bind_GET_SIZE W _ _ _ _ Hh), (proj2 (Z.leb_gt _ _) Hlt).
  unfold GET_NEXTP. rewrite (bind_GET W _ _ _ _ Hnx). exact IH.
Qed.

(** X16.  [mm_free] does not notice a block that is free already.  With two
    blocks allocated, freeing the first one twice inserts it in the free
    list a second time while it is the head: its next link then points at
    the block itself.  From then on the loop of [find_fit] never ends for a
    request larger than that block: it runs out of every amount of fuel. *)
Theorem double_free_makes_list_cyclic W s size1 size2 :
  W = 4 \/ W = 8 ->
  0 <= mem_lo s <= mem_brk s -> mem_brk s mod W = 0 ->
  mem_brk s + 8 * W + CHUNKSIZE <= mem_max s -> mem_max s < 2 ^ wbits W ->
  size_of W (default 0 (mem s !! (mem_brk s + 6 * W))) = 0 ->
  0 < size1 <= CHUNKSIZE -> 0 < size2 <= CHUNKSIZE ->
  adjust_size W size1 + adjust_size W size2 + 2 * DSIZE W <= CHUNKSIZE ->
  let p := mem_brk s + 8 * W in
  exists s',
    session W [Malloc size1; Malloc size2; Free p; Free p] s
      = Ok [p; p + adjust_size W size1; 0; 0] s' /\
    list_head s' = p /\
    load W (wrap W (p + W)) s' = Some p /\
    forall asize fuel,
      adjust_size W size1 < asize ->
      find_fit_loop W fuel asize (list_head s') s' = OutOfFuel.
Proof.
  intros HW Hlo Hal Hmx Hfit Hz Hs1 Hs2 Hsum p.
  destruct s as [m lo brk mx hl lh]. cbn [mem mem_lo mem_brk mem_max] in *.
  change CHUNKSIZE with 4096 in *.
  set (asize1 := adjust_size W size1) in *. set (asize2 := adjust_size W size2) in *.
  assert (Ha : forall size, 0 < size <= 4096 ->
             is_size W (adjust_size W size) /\ 2 * DSIZE W <= adjust_size W size).
  { intros size Hs. unfold adjust_size, is_size.
    destruct (size <=? DSIZE W) eqn:E; [apply Z.leb_le in E | apply Z.leb_gt in E];
      w_lia HW. }
  destruct (Ha size1 Hs1) as (Ha1 & Hb1).
  destruct (Ha size2 Hs2) as (Ha2 & Hb2). clear Ha.
  fold asize1 in Ha1, Hb1. fold asize2 in Ha2, Hb2.
  assert (Hr1 : is_size W (4096 - asize1)).
  { destruct Ha1 as [? ?]. unfold is_size. w_lia HW. }
  assert (Hr2 : is_size W (4096 - asize1 - asize2)).
  { destruct Ha1 as [? ?], Ha2 as [? ?]. unfold is_size. w_lia HW. }
  assert (Hz' : forall a, a = brk + 6 * W -> size_of W (default 0 (m !! a)) = 0).
  { intros a ->. exact Hz. }
  pose proof (mm_init_run W m lo brk mx hl lh HW Hlo Hal Hmx Hfit Hz) as Ei.
  clear Hz.
  assert (Hnz1 : (size1 =? 0) = false) by (apply Z.eqb_neq; lia).
  assert (Hnz2 : (size2 =? 0) = false) by (apply Z.eqb_neq; lia).
  unfold session. rewrite (bind_Ok _ _ _ _ _ Ei). cbn [Z.eqb run_calls].
  unfold mm_malloc. rewrite Hnz1, Hnz2. clear Hnz1 Hnz2.
  fold asize1. fold asize2. cbv zeta. subst p.
  clearbody asize1 asize2. clear Ei.
  destruct HW; subst W; prep;
  (eexists; split;
   [ run; reflexivity
   | cbn [list_head]; conj_split;
     [ reflexivity
     | load_solve; reflexivity
     | intros asize fuel Hlt;
       eapply find_fit_loop_self_loop;
       [ side | load_solve; reflexivity | vals; exact Hlt | load_solve; reflexivity ] ] ]).
Qed.

Lemma double_free_makes_list_cyclic_witness :
  (0 <= mem_lo heap0 <= mem_brk heap0 /\ mem_brk heap0 mod 8 = 0 /\
   mem_brk heap0 + 8 * 8 + CHUNKSIZE <= mem_max heap0 /\
   mem_max heap0 < 2 ^ wbits 8 /\
   size_of 8 (default 0 (mem heap0 !! (mem_brk heap0 + 6 * 8))) = 0 /\
   0 < 100 <= CHUNKSIZE /\ 0 < 200 <= CHUNKSIZE /\
   adjust_size 8 100 + adjust_size 8 200 + 2 * DSIZE 8 <= CHUNKSIZE) /\
  let p := mem_brk heap0 + 8 * 8 in
  exists s',
    session 8 [Malloc 100; Malloc 200; Free p; Free p] heap0
      = Ok [p; p + adjust_size 8 100; 0; 0] s' /\
    list_head s' = p /\
    load 8 (wrap 8 (p + 8)) s' = Some p /\
    forall asize fuel,
      adjust_size 8 100 < asize ->
      find_fit_loop 8 fuel asize (list_head s') s' = OutOfFuel.
Proof.
  assert (H1 : 0 <= mem_lo heap0 <= mem_brk heap0) by (split; eval_fact).
  assert (H2 : mem_brk heap0 mod 8 = 0) by eval_fact.
  assert (H3 : mem_brk heap0 + 8 * 8 + CHUNKSIZE <= mem_max heap0) by eval_fact.
  assert (H4 : mem_max heap0 < 2 ^ wbits 8) by eval_fact.
  assert (H5 : size_of 8 (default 0 (mem heap0 !! (mem_brk heap0 + 6 * 8))) = 0)
    by eval_fact.
  assert (H6 : 0 < 100 <= CHUNKSIZE) by (split; eval_fact).
  assert (H7 : 0 < 200 <= CHUNKSIZE) by (split; eval_fact).
  assert (H8 : adjust_size 8 100 + adjust_size 8 200 + 2 * DSIZE 8 <= CHUNKSIZE)
    by eval_fact.
  split; [exact (conj H1 (conj H2 (conj H3 (conj H4 (conj H5 (conj H6 (conj H7 H8))))))) |].
  exact (double_free_makes_list_cyclic 8 heap0 100 200 (or_intror eq_refl)
           H1 H2 H3 H4 H5 H6 H7 H8).
Defined.

(** * The consistency checker *)

Lemma check_free_list_loop_even W pb fuel : forall p s l,
  list_walk W fuel p s = Ok l s ->
  (forall x, In x l -> exists v, load W x s = Some v /\ alloc_of v = 0) ->
  check_free_list_loop W pb fuel p s = Ok [] s.
Proof.
  induction fuel as [| n IH]; intros p s l E Hev; [discriminate |].
  destruct (list_walk_step W _ _ _ _ E) as [[-> ->] | (Hp & nx & rest & Hn & -> & E1)].
  - reflexivity.
  - destruct (Hev p (or_introl eq_refl)) as (v & Hv & Ha).
    cbn [check_free_list_loop]. rewrite (proj2 (Z.eqb_neq _ _) Hp).
    rewrite (bind_GET_ALLOC W _ _ _ _ Hv), Ha. cbn [Z.eqb negb].
    rewrite bind_ret_l. unfold GET_NEXTP. rewrite (bind_GET W _ _ _ _ Hn).
    rewrite (bind_Ok _ _ _ _ _ (IH nx s rest E1 (fun x Hx => Hev x (or_intror Hx)))).
    reflexivity.
Qed.

(** X17.  [check_free_list] tests the allocated bit of the word at the node
    itself, which is the node's prev link, not of the block's header.  On a
    free list whose prev links are all even it therefore reports nothing
    and never calls [printblock], whatever the headers of the blocks say. *)
Theorem check_free_list_looks_at_prev_link W depth s l :
  list_walk W (heap_fuel W s) (list_head s) s = Ok l s ->
  (forall x, In x l -> exists v, load W x s = Some v /\ alloc_of v = 0) ->
  check_free_list W depth s = Ok [] s.
Proof.
  intros E Hev. unfold check_free_list, check_free_list_with.
  now apply (check_free_list_loop_even W _ _ _ _ l).
Qed.

Lemma check_free_list_looks_at_prev_link_witness :
  (list_walk 8 (heap_fuel 8 heap_two_freed) (list_head heap_two_freed) heap_two_freed
     = Ok [4256; 4160; 4352; 4120] heap_two_freed /\
   (forall x, In x [4256; 4160; 4352; 4120] ->
      exists v, load 8 x heap_two_freed = Some v /\ alloc_of v = 0) /\
   load 8 (HDRP 8 4120) heap_two_freed = Some (PACK 16 1)) /\
  check_free_list 8 1 heap_two_freed = Ok [] heap_two_freed.
Proof.
  assert (Hev : forall x, In x [4256; 4160; 4352; 4120] ->
      exists v, load 8 x heap_two_freed = Some v /\ alloc_of v = 0).
  { intros x [<- | [<- | [<- | [<- | []]]]];
      [exists 0 | exists 4256 | exists 4160 | exists 4352]; split; eval_fact. }
  assert (Hh : load 8 (HDRP 8 4120) heap_two_freed = Some (PACK 16 1)) by eval_fact.
  assert (E : list_walk 8 (heap_fuel 8 heap_two_freed) (list_head heap_two_freed)
                heap_two_freed = Ok [4256; 4160; 4352; 4120] heap_two_freed)
    by eval_fact.
  split; [exact (conj E (conj Hev Hh)) |].
  exact (check_free_list_looks_at_prev_link 8 1 heap_two_freed
           [4256; 4160; 4352; 4120] E Hev).
Defined.

Lemma keeps_get_heap_listp : keeps get_heap_listp.
Proof. intros s a s' E. inversion E. apply grows_refl. Qed.

#[local] Hint Resolve keeps_get_heap_listp : keeps.



